(** * Stream access control (zerver/lib/streams.py)

    A shallow embedding of [access_stream_common], [access_stream_by_id],
    [access_stream_by_name] and [filter_stream_authorization], over an
    explicit model of the tables the functions read, and the properties
    of the access policy proved about it. *)

From stdpp Require Import base gmap sets list strings.

Open Scope Z_scope.

(** ** Rows of the tables *)

Record Realm := { realm_pk : Z }.

(** The profile is handed in by the caller together with its realm;
    [user_profile.realm_id] is the primary key of that realm. *)
Record UserProfile := {
  user_id : Z;
  realm : Realm
}.

Definition realm_id (user_profile : UserProfile) : Z :=
  realm_pk (realm user_profile).

Record Stream := {
  stream_id : Z;
  stream_name : string;
  stream_realm_id : Z;
  invite_only : bool
}.

(** Modelled from the spec: the kind tag of a recipient.  The class
    [Recipient] is declared in zerver/models.py, which is not part of
    the sources at hand; this module only ever passes [Recipient.STREAM]. *)
Inductive RecipientKind := PERSONAL | STREAM | HUDDLE.

Record Recipient := {
  recipient_id : Z;
  rtype : RecipientKind;
  type_id : Z
}.

(** A subscription row: the two foreign keys are stored as the primary
    keys they point to, as in the table. *)
Record Subscription := {
  sub_id : Z;
  sub_user_profile_id : Z;
  sub_recipient_id : Z;
  active : bool
}.

Record Db := {
  Stream_objects : list Stream;
  Recipient_objects : list Recipient;
  Subscription_objects : list Subscription
}.

#[global] Instance RecipientKind_eq_dec : EqDecision RecipientKind.
Proof. solve_decision. Defined.
#[global] Instance Stream_eq_dec : EqDecision Stream.
Proof. solve_decision. Defined.
#[global] Instance Recipient_eq_dec : EqDecision Recipient.
Proof. solve_decision. Defined.
#[global] Instance Subscription_eq_dec : EqDecision Subscription.
Proof. solve_decision. Defined.

(** ** Exceptions and outcomes *)

Inductive Model := MStream | MRecipient | MSubscription.

(** [JsonableError] is the one error this module raises itself; the two
    others are the exceptions of the object manager's [get]. *)
Inductive exn :=
| JsonableError (error : string)
| DoesNotExist (m : Model)
| MultipleObjectsReturned (m : Model).

Inductive Outcome (A : Type) :=
| Return (a : A)
| Raise (e : exn).
Arguments Return {A} a.
Arguments Raise {A} e.

(** ** Collaborator calls

    Every access to a collaborator is recorded, in order, so that the
    number of round-trips of a run can be read off the log. *)
Inductive Call :=
| Call_get_recipient (kind : RecipientKind) (tid : Z)
| Call_bulk_get_recipients (kind : RecipientKind) (tids : list Z)
| Call_get_stream (name : string) (realm_pk : Z)
| Call_Stream_get (id : Z)
| Call_Subscription_get (user_profile_id recipient_pk : Z)
| Call_Subscription_filter (user_profile_id : Z) (recipient_pks : list Z)
| Call_load_recipient (recipient_pk : Z).

(** The single-row loads behind [sub.recipient]. *)
Definition is_load (c : Call) : bool :=
  match c with
  | Call_load_recipient _ => true
  | _ => false
  end.

Record World := {
  world_db : Db;
  world_log : list Call
}.

(** ** The monad of the module: state (the world) and exceptions *)

Definition M (A : Type) : Type := World → Outcome A * World.

#[global] Instance M_ret : MRet M := λ A a w, (Return a, w).

#[global] Instance M_bind : MBind M := λ A B f m w,
  match m w with
  | (Return a, w') => f a w'
  | (Raise e, w') => (Raise e, w')
  end.

#[global] Instance M_fmap : FMap M := λ A B f m w,
  match m w with
  | (Return a, w') => (Return (f a), w')
  | (Raise e, w') => (Raise e, w')
  end.

Definition raise {A} (e : exn) : M A := λ w, (Raise e, w).

(** [try: m except ...: h], where [h e] is [None] for an exception the
    clause does not name (it propagates). *)
Definition try_except {A} (m : M A) (h : exn → option (M A)) : M A := λ w,
  match m w with
  | (Return a, w') => (Return a, w')
  | (Raise e, w') =>
      match h e with
      | Some k => k w'
      | None => (Raise e, w')
      end
  end.

(** A read of the database: the answer is computed from the tables, the
    tables are left as they are, and the call is appended to the log. *)
Definition query {A} (c : Call) (read : Db → Outcome A) : M A := λ w,
  (read (world_db w),
   {| world_db := world_db w; world_log := world_log w ++ [c] |}).

Definition run {A} (m : M A) (db : Db) : Outcome A * World :=
  m {| world_db := db; world_log := [] |}.

Definition eval {A} (m : M A) (db : Db) : Outcome A := (run m db).1.

Definition calls {A} (m : M A) (db : Db) : list Call :=
  world_log (run m db).2.

(** ** The object manager

    [QuerySet.get]: the one matching row, [DoesNotExist] when there is
    none, [MultipleObjectsReturned] when there are several. *)
Definition qs_get {A} (m : Model) (rows : list A) : Outcome A :=
  match rows with
  | [] => Raise (DoesNotExist m)
  | [a] => Return a
  | _ => Raise (MultipleObjectsReturned m)
  end.

Definition Stream_rows (db : Db) (id : Z) : list Stream :=
  filter (λ s, stream_id s = id) (Stream_objects db).

(** [Stream.objects.get(id=stream_id)] *)
Definition Stream_objects_get (id : Z) : M Stream :=
  query (Call_Stream_get id) (λ db, qs_get MStream (Stream_rows db id)).

Definition Subscription_rows (db : Db) (user_profile : UserProfile)
    (recipient : Recipient) : list Subscription :=
  filter (λ sub, sub_user_profile_id sub = user_id user_profile
                 ∧ sub_recipient_id sub = recipient_id recipient
                 ∧ active sub = true)
         (Subscription_objects db).

(** [Subscription.objects.get(user_profile=..., recipient=..., active=True)] *)
Definition Subscription_objects_get (user_profile : UserProfile)
    (recipient : Recipient) : M Subscription :=
  query (Call_Subscription_get (user_id user_profile) (recipient_id recipient))
        (λ db, qs_get MSubscription (Subscription_rows db user_profile recipient)).

Definition Subscription_rows_in (db : Db) (user_profile : UserProfile)
    (recipients : list Recipient) : list Subscription :=
  filter (λ sub, sub_user_profile_id sub = user_id user_profile
                 ∧ sub_recipient_id sub ∈ (recipient_id <$> recipients)
                 ∧ active sub = true)
         (Subscription_objects db).

(** [Subscription.objects.filter(user_profile=..., recipient__in=...,
    active=True)], evaluated once, by the loop that iterates over it. *)
Definition Subscription_objects_filter (user_profile : UserProfile)
    (recipients : list Recipient) : M (list Subscription) :=
  query (Call_Subscription_filter (user_id user_profile)
                                  (recipient_id <$> recipients))
        (λ db, Return (Subscription_rows_in db user_profile recipients)).

Definition Recipient_rows_pk (db : Db) (pk : Z) : list Recipient :=
  filter (λ r, recipient_id r = pk) (Recipient_objects db).

(** [sub.recipient]: the subscriptions come from a queryset without
    [select_related], so the row behind the foreign key is loaded when
    the attribute is read, one load for each subscription object. *)
Definition sub_recipient (sub : Subscription) : M Recipient :=
  query (Call_load_recipient (sub_recipient_id sub))
        (λ db, qs_get MRecipient (Recipient_rows_pk db (sub_recipient_id sub))).

(** ** Helpers of zerver/models.py *)

Definition Recipient_rows (db : Db) (kind : RecipientKind) (tid : Z)
    : list Recipient :=
  filter (λ r, rtype r = kind ∧ type_id r = tid) (Recipient_objects db).

(** Modelled from the spec: [get_recipient(kind, channel_id)] of
    zerver/models.py, a single lookup of the recipient of a channel,
    which fails if the channel has no recipient. *)
Definition get_recipient (kind : RecipientKind) (tid : Z) : M Recipient :=
  query (Call_get_recipient kind tid)
        (λ db, qs_get MRecipient (Recipient_rows db kind tid)).

Definition Recipient_rows_bulk (db : Db) (kind : RecipientKind)
    (tids : list Z) : list Recipient :=
  filter (λ r, rtype r = kind ∧ type_id r ∈ tids) (Recipient_objects db).

(** Modelled from the spec: [bulk_get_recipients(kind, channel_ids)] of
    zerver/models.py, one bulk call that returns the mapping from
    channel id to recipient. *)
Definition bulk_get_recipients (kind : RecipientKind) (tids : list Z)
    : M (gmap Z Recipient) :=
  query (Call_bulk_get_recipients kind tids)
        (λ db, Return (list_to_map
                         ((λ r, (type_id r, r)) <$> Recipient_rows_bulk db kind tids))).

Definition Stream_rows_named (db : Db) (name : string) (realm_pk : Z)
    : list Stream :=
  filter (λ s, stream_name s = name ∧ stream_realm_id s = realm_pk)
         (Stream_objects db).

(** Modelled from the spec: [get_stream(name, realm)] of
    zerver/models.py, the lookup of a channel by name scoped to an
    organization, which answers [None] when there is no such channel. *)
Definition get_stream (name : string) (realm : Realm) : M (option Stream) :=
  query (Call_get_stream name (realm_pk realm))
        (λ db, match qs_get MStream (Stream_rows_named db name (realm_pk realm)) with
               | Return s => Return (Some s)
               | Raise (DoesNotExist _) => Return None
               | Raise e => Raise e
               end).

(** Modelled from the spec: [Stream.is_public] of zerver/models.py; the
    flag is derived from [invite_only]. *)
Definition is_public (stream : Stream) : bool := negb (invite_only stream).

(** [list(recipients_map.values())].  The values come in the order of
    the map, which is not the order of the dictionary; the source only
    tests membership in the list ([recipient__in]). *)
Definition dict_values {V} (d : gmap Z V) : list V := (map_to_list d).*2.

(** ** The module *)

Section streams.

(** [ugettext], imported as [_]: the translation of a message into the
    language of the request. *)
Variable ugettext : string → string.

Definition access_stream_common (user_profile : UserProfile) (stream : Stream)
    (error : string) : M (Recipient * option Subscription) :=
  (* First, we don't allow any access to streams in other realms. *)
  if negb (stream_realm_id stream =? realm_id user_profile) then
    raise (JsonableError error)
  else
    recipient ← get_recipient STREAM (stream_id stream);
    sub ← try_except (Some <$> Subscription_objects_get user_profile recipient)
                     (λ e, match e with
                           | DoesNotExist MSubscription => Some (mret None)
                           | _ => None
                           end);
    (* If the stream is in your realm and public, you can access it. *)
    if is_public stream then mret (recipient, sub)
    else
      (* Or if you are subscribed to the stream, you can access it. *)
      match sub with
      | Some _ => mret (recipient, sub)
      | None => raise (JsonableError error)
      end.

Definition invalid_stream_id : string := "Invalid stream id".

Definition access_stream_by_id (user_profile : UserProfile) (stream_id : Z)
    : M (Stream * Recipient * option Subscription) :=
  let error := ugettext invalid_stream_id in
  stream ← try_except (Stream_objects_get stream_id)
                      (λ e, match e with
                            | DoesNotExist MStream => Some (raise (JsonableError error))
                            | _ => None
                            end);
  '(recipient, sub) ← access_stream_common user_profile stream error;
  mret (stream, recipient, sub).

(** ["Invalid stream name '%s'" % (stream_name,)] *)
Definition invalid_stream_name (stream_name : string) : string :=
  "Invalid stream name '" +:+ stream_name +:+ "'".

Definition access_stream_by_name (user_profile : UserProfile)
    (stream_name : string) : M (Stream * Recipient * option Subscription) :=
  let error := ugettext (invalid_stream_name stream_name) in
  stream ← get_stream stream_name (realm user_profile);
  match stream with
  | None => raise (JsonableError error)
  | Some stream =>
      '(recipient, sub) ← access_stream_common user_profile stream error;
      mret (stream, recipient, sub)
  end.

(** [for sub in subs: streams_subscribed.add(sub.recipient.type_id)] *)
Fixpoint add_subscribed (subs : list Subscription) (streams_subscribed : gset Z)
    : M (gset Z) :=
  match subs with
  | [] => mret streams_subscribed
  | sub :: subs' =>
      recipient ← sub_recipient sub;
      add_subscribed subs' ({[type_id recipient]} ∪ streams_subscribed)
  end.

(** The second loop: one step for one stream of the input. *)
Definition collect_unauthorized (streams_subscribed : gset Z)
    (unauthorized_streams : list Stream) (stream : Stream) : list Stream :=
  (* The user is authorized for his own streams *)
  if decide (stream_id stream ∈ streams_subscribed) then unauthorized_streams
  (* The user is not authorized for invite_only streams *)
  else if invite_only stream then unauthorized_streams ++ [stream]
  else unauthorized_streams.

Definition filter_stream_authorization (user_profile : UserProfile)
    (streams : list Stream) : M (list Stream * list Stream) :=
  let streams_subscribed : gset Z := ∅ in
  recipients_map ← bulk_get_recipients STREAM (stream_id <$> streams);
  subs ← Subscription_objects_filter user_profile (dict_values recipients_map);
  streams_subscribed ← add_subscribed subs streams_subscribed;
  let unauthorized_streams :=
    foldl (collect_unauthorized streams_subscribed) [] streams in
  let authorized_streams :=
    filter (λ stream, stream_id stream ∉
              (list_to_set (stream_id <$> unauthorized_streams) : gset Z))
           streams in
  mret (authorized_streams, unauthorized_streams).

End streams.

(** ** Concrete data for running the model *)

Module Sample.

Definition org_a : Realm := {| realm_pk := 1 |}.
Definition org_b : Realm := {| realm_pk := 2 |}.
Definition U : UserProfile := {| user_id := 10; realm := org_a |}.

Definition S1 : Stream :=
  {| stream_id := 1; stream_name := "general"; stream_realm_id := 1; invite_only := false |}.
Definition S2 : Stream :=
  {| stream_id := 2; stream_name := "core"; stream_realm_id := 1; invite_only := true |}.
Definition S3 : Stream :=
  {| stream_id := 3; stream_name := "board"; stream_realm_id := 1; invite_only := true |}.
Definition S4 : Stream :=
  {| stream_id := 4; stream_name := "lobby"; stream_realm_id := 2; invite_only := false |}.

Definition R1 : Recipient := {| recipient_id := 101; rtype := STREAM; type_id := 1 |}.
Definition R2 : Recipient := {| recipient_id := 102; rtype := STREAM; type_id := 2 |}.
Definition R3 : Recipient := {| recipient_id := 103; rtype := STREAM; type_id := 3 |}.
Definition R4 : Recipient := {| recipient_id := 104; rtype := STREAM; type_id := 4 |}.
Definition RP : Recipient := {| recipient_id := 105; rtype := PERSONAL; type_id := 10 |}.

Definition Sub2 : Subscription :=
  {| sub_id := 1000; sub_user_profile_id := 10; sub_recipient_id := 102; active := true |}.
Definition Sub3_inactive : Subscription :=
  {| sub_id := 1001; sub_user_profile_id := 10; sub_recipient_id := 103; active := false |}.
Definition Sub3_other : Subscription :=
  {| sub_id := 1002; sub_user_profile_id := 11; sub_recipient_id := 103; active := true |}.

Definition db : Db :=
  {| Stream_objects := [S1; S2; S3; S4];
     Recipient_objects := [R1; R2; R3; R4; RP];
     Subscription_objects := [Sub2; Sub3_inactive; Sub3_other] |}.

(** The same tables, with the user subscribed to [S3] as well. *)
Definition Sub3 : Subscription :=
  {| sub_id := 1003; sub_user_profile_id := 10; sub_recipient_id := 103; active := true |}.

Definition db_two_subs : Db :=
  {| Stream_objects := [S1; S2; S3; S4];
     Recipient_objects := [R1; R2; R3; R4; RP];
     Subscription_objects := [Sub2; Sub3; Sub3_other] |}.

(** A second, stale copy of [S3] that says the stream is public. *)
Definition S3_stale : Stream :=
  {| stream_id := 3; stream_name := "board"; stream_realm_id := 1; invite_only := false |}.

(** No translation in force: [ugettext] hands the message back. *)
Definition english : string → string := λ s, s.

End Sample.

(** Tables that break an integrity constraint: in [db_no_recipient] the
    stream [S1] has no recipient row, in [db_double_sub] the user has
    two active subscriptions to the recipient of [S1]. *)
Module Broken.

Definition db_no_recipient : Db :=
  {| Stream_objects := [Sample.S1; Sample.S2];
     Recipient_objects := [Sample.R2];
     Subscription_objects := [Sample.Sub2] |}.

Definition Sub1 : Subscription :=
  {| sub_id := 2000; sub_user_profile_id := 10; sub_recipient_id := 101; active := true |}.
Definition Sub1_again : Subscription :=
  {| sub_id := 2001; sub_user_profile_id := 10; sub_recipient_id := 101; active := true |}.

Definition db_double_sub : Db :=
  {| Stream_objects := [Sample.S1];
     Recipient_objects := [Sample.R1];
     Subscription_objects := [Sub1; Sub1_again] |}.

End Broken.

(** ** Integrity constraints of the tables

    Primary keys are unique, a channel has one recipient (a recipient is
    determined by its kind and [type_id]), and a user has at most one
    active subscription to a recipient. *)
Record db_wf (db : Db) : Prop := {
  wf_stream_pk : NoDup (stream_id <$> Stream_objects db);
  wf_recipient_pk : NoDup (recipient_id <$> Recipient_objects db);
  wf_recipient_unique :
    NoDup ((λ r, (rtype r, type_id r)) <$> Recipient_objects db);
  wf_active_unique :
    NoDup ((λ sub, (sub_user_profile_id sub, sub_recipient_id sub))
             <$> filter (λ sub, active sub = true) (Subscription_objects db))
}.

(** [recipient] is the recipient of [stream]. *)
Definition recipient_of (db : Db) (stream : Stream) (recipient : Recipient)
    : Prop :=
  recipient ∈ Recipient_objects db
  ∧ rtype recipient = STREAM ∧ type_id recipient = stream_id stream.

(** [sub] is an active subscription of the user to the recipient. *)
Definition active_subscription (db : Db) (user_profile : UserProfile)
    (recipient : Recipient) (sub : Subscription) : Prop :=
  sub ∈ Subscription_objects db
  ∧ sub_user_profile_id sub = user_id user_profile
  ∧ sub_recipient_id sub = recipient_id recipient
  ∧ active sub = true.

(** The user has an active subscription to the recipient of the stream. *)
Definition subscribed (db : Db) (user_profile : UserProfile) (stream : Stream)
    : Prop :=
  Exists (λ r, (rtype r = STREAM ∧ type_id r = stream_id stream)
               ∧ Exists (λ sub, sub_user_profile_id sub = user_id user_profile
                                ∧ sub_recipient_id sub = recipient_id r
                                ∧ active sub = true)
                        (Subscription_objects db))
         (Recipient_objects db).

#[global] Instance subscribed_dec db u s : Decision (subscribed db u s).
Proof. unfold subscribed. apply _. Defined.

(** The classification the bulk filter is meant to compute. *)
Definition unauthorized_for (db : Db) (user_profile : UserProfile)
    (stream : Stream) : Prop :=
  invite_only stream = true ∧ ¬ subscribed db user_profile stream.

(** Model instances compare equal when their primary keys are equal;
    [occurs] is membership in a list up to that equality. *)
Definition occurs (stream : Stream) (streams : list Stream) : Prop :=
  stream_id stream ∈ (stream_id <$> streams).

(** Entries of the list that carry the same id agree on [invite_only]. *)
Definition same_id_same_flag (streams : list Stream) : Prop :=
  ∀ s1 s2, s1 ∈ streams → s2 ∈ streams →
    stream_id s1 = stream_id s2 → invite_only s1 = invite_only s2.

(** ** Computations that only read

    A computation [reads] when, from any world, it answers what it
    answers on the database of that world with an empty log, leaves the
    database alone, and appends the calls it made to the log. *)
Definition reads {A} (m : M A) : Prop :=
  ∀ w, m w = (eval m (world_db w),
              {| world_db := world_db w;
                 world_log := world_log w ++ calls m (world_db w) |}).

(** The recipients the bulk lookup finds for the input, and the
    subscriptions the bulk fetch finds for them. *)
Definition recipients_found (db : Db) (streams : list Stream)
    : gmap Z Recipient :=
  list_to_map ((λ r, (type_id r, r))
                 <$> Recipient_rows_bulk db STREAM (stream_id <$> streams)).

Definition subs_found (db : Db) (user_profile : UserProfile)
    (streams : list Stream) : list Subscription :=
  Subscription_rows_in db user_profile (dict_values (recipients_found db streams)).

(** The user's active subscriptions to recipients of streams of the
    input, as the subscription table lists them. *)
Definition active_subscriptions_to (db : Db) (user_profile : UserProfile)
    (streams : list Stream) : list Subscription :=
  filter (λ sub, sub_user_profile_id sub = user_id user_profile
                 ∧ active sub = true
                 ∧ Exists (λ r, recipient_id r = sub_recipient_id sub
                                ∧ rtype r = STREAM
                                ∧ type_id r ∈ (stream_id <$> streams))
                          (Recipient_objects db))
         (Subscription_objects db).

(** ** Facts about [filter] on keyed tables *)

Section keyed.
Context {A B : Type} (f : A → B) (P : A → Prop) `{!∀ x, Decision (P x)}.

Lemma filter_none (l : list A) :
  (∀ x, x ∈ l → ¬ P x) → filter P l = [].
Proof.
  induction l as [|a l IH]; intros Hn; [done|].
  rewrite filter_cons_False.
  - apply IH. intros x Hx. apply Hn. by right.
  - apply Hn. by left.
Qed.

Lemma filter_keyed (l : list A) (k : B) :
  NoDup (f <$> l) → (∀ y, P y → f y = k) →
  filter P l = [] ∨ ∃ x, filter P l = [x].
Proof.
  intros Hnd Hk. induction l as [|a l IH]; [by left|].
  rewrite fmap_cons in Hnd. apply NoDup_cons in Hnd as [Ha Hnd].
  destruct (decide (P a)) as [Hp|Hp].
  - right. exists a. rewrite filter_cons_True; [|done]. f_equal.
    apply filter_none. intros x Hx Hpx. apply Ha.
    rewrite (Hk a Hp), <- (Hk x Hpx). by apply list_elem_of_fmap_2.
  - rewrite filter_cons_False; [|done]. by apply IH.
Qed.

Lemma filter_keyed_elem (l : list A) (x : A) :
  NoDup (f <$> l) → (∀ y, P y → f y = f x) → x ∈ l → P x →
  filter P l = [x].
Proof.
  intros Hnd Hk Hx Hp.
  assert (Hin : x ∈ filter P l) by by apply list_elem_of_filter.
  destruct (filter_keyed l (f x) Hnd Hk) as [E|[y E]]; rewrite E in Hin |- *.
  - by apply not_elem_of_nil in Hin.
  - apply list_elem_of_singleton in Hin. by subst.
Qed.

Lemma filter_iff_in (Q : A → Prop) `{!∀ x, Decision (Q x)} (l : list A) :
  (∀ x, x ∈ l → (P x ↔ Q x)) → filter P l = filter Q l.
Proof.
  induction l as [|a l IH]; intros He; [done|].
  assert (IH' : filter P l = filter Q l).
  { apply IH. intros x Hx. apply He. by right. }
  rewrite !filter_cons. rewrite IH'.
  destruct (decide (P a)) as [Hp|Hp], (decide (Q a)) as [Hq|Hq]; try done.
  - exfalso. apply Hq, He; [by left|done].
  - exfalso. apply Hp, He; [by left|done].
Qed.

End keyed.

(** ** Computations that only read *)

Lemma reads_ret {A} (a : A) : reads (mret a).
Proof. intros [db log]. unfold reads, eval, calls, run; simpl. by rewrite app_nil_r. Qed.

Lemma reads_raise {A} (e : exn) : reads (@raise A e).
Proof. intros [db log]. unfold reads, eval, calls, run; simpl. by rewrite app_nil_r. Qed.

Lemma reads_query {A} (c : Call) (read : Db → Outcome A) : reads (query c read).
Proof. by intros [db log]. Qed.

Lemma reads_bind {A B} (m : M A) (f : A → M B) :
  reads m → (∀ a, reads (f a)) → reads (m ≫= f).
Proof.
  intros Hm Hf w. unfold eval, calls, run, mbind, M_bind.
  rewrite (Hm w), (Hm {| world_db := world_db w; world_log := [] |}); simpl.
  destruct (eval m (world_db w)) as [a|e]; simpl; [|done].
  rewrite (Hf a {| world_db := world_db w; world_log := world_log w ++ _ |}).
  rewrite (Hf a {| world_db := world_db w; world_log := calls m (world_db w) |}).
  simpl. by rewrite app_assoc.
Qed.

Lemma reads_fmap {A B} (g : A → B) (m : M A) : reads m → reads (g <$> m).
Proof.
  intros Hm w. unfold eval, calls, run, fmap, M_fmap.
  rewrite (Hm w), (Hm {| world_db := world_db w; world_log := [] |}); simpl.
  by destruct (eval m (world_db w)).
Qed.

Lemma reads_try_except {A} (m : M A) (h : exn → option (M A)) :
  reads m → (∀ e k, h e = Some k → reads k) → reads (try_except m h).
Proof.
  intros Hm Hh w. unfold eval, calls, run, try_except.
  rewrite (Hm w), (Hm {| world_db := world_db w; world_log := [] |}); simpl.
  destruct (eval m (world_db w)) as [a|e]; simpl; [done|].
  destruct (h e) as [k|] eqn:E; simpl; [|done].
  rewrite (Hh e k E {| world_db := world_db w; world_log := world_log w ++ _ |}).
  rewrite (Hh e k E {| world_db := world_db w; world_log := calls m (world_db w) |}).
  simpl. by rewrite app_assoc.
Qed.

Lemma eval_bind {A B} (m : M A) (f : A → M B) (db : Db) :
  reads m → (∀ a, reads (f a)) →
  eval (m ≫= f) db =
    match eval m db with
    | Return a => eval (f a) db
    | Raise e => Raise e
    end.
Proof.
  intros Hm Hf. unfold eval at 1. unfold run, mbind, M_bind.
  rewrite (Hm {| world_db := db; world_log := [] |}); simpl.
  destruct (eval m db) as [a|e]; [|done].
  by rewrite (Hf a {| world_db := db; world_log := calls m db |}).
Qed.

Lemma calls_bind {A B} (m : M A) (f : A → M B) (db : Db) :
  reads m → (∀ a, reads (f a)) →
  calls (m ≫= f) db =
    calls m db ++ match eval m db with
                  | Return a => calls (f a) db
                  | Raise e => []
                  end.
Proof.
  intros Hm Hf. unfold calls at 1. unfold run, mbind, M_bind.
  rewrite (Hm {| world_db := db; world_log := [] |}); simpl.
  destruct (eval m db) as [a|e]; [|by rewrite app_nil_r].
  by rewrite (Hf a {| world_db := db; world_log := calls m db |}).
Qed.

Lemma db_unchanged {A} (m : M A) (db : Db) :
  reads m → world_db (run m db).2 = db.
Proof. intros Hm. unfold run. by rewrite (Hm {| world_db := db; world_log := [] |}). Qed.

Lemma reads_access_stream_common u s err : reads (access_stream_common u s err).
Proof.
  unfold access_stream_common.
  destruct (negb _); [apply reads_raise|].
  apply reads_bind; [apply reads_query|]. intros r.
  apply reads_bind.
  - apply reads_try_except; [apply reads_fmap, reads_query|].
    intros [|[]|] k E; simplify_eq. apply reads_ret.
  - intros [sub|]; destruct (is_public s);
      first [apply reads_ret | apply reads_raise].
Qed.

Lemma reads_access_stream_by_id g u id : reads (access_stream_by_id g u id).
Proof.
  unfold access_stream_by_id. apply reads_bind.
  - apply reads_try_except; [apply reads_query|].
    intros [|[]|] k E; simplify_eq. apply reads_raise.
  - intros s. apply reads_bind; [apply reads_access_stream_common|].
    intros [r sub]. apply reads_ret.
Qed.

Lemma reads_access_stream_by_name g u name : reads (access_stream_by_name g u name).
Proof.
  unfold access_stream_by_name. apply reads_bind; [apply reads_query|].
  intros [s|]; [|apply reads_raise].
  apply reads_bind; [apply reads_access_stream_common|].
  intros [r sub]. apply reads_ret.
Qed.

Lemma reads_add_subscribed subs acc : reads (add_subscribed subs acc).
Proof.
  revert acc. induction subs as [|sub subs IH]; intros acc; simpl.
  - apply reads_ret.
  - apply reads_bind; [apply reads_query|]. intros r. apply IH.
Qed.

Ltac solve_reads :=
  repeat match goal with
    | |- ∀ _, _ => intro
    | |- reads (mret _) => apply reads_ret
    | |- reads (raise _) => apply reads_raise
    | |- reads (_ ≫= _) => apply reads_bind
    | |- reads (_ <$> _) => apply reads_fmap
    | |- reads (add_subscribed _ _) => apply reads_add_subscribed
    | |- reads (access_stream_common _ _ _) => apply reads_access_stream_common
    | |- reads (query _ _) => apply reads_query
    | |- reads (get_recipient _ _) => apply reads_query
    | |- reads (get_stream _ _) => apply reads_query
    | |- reads (bulk_get_recipients _ _) => apply reads_query
    | |- reads (Subscription_objects_filter _ _) => apply reads_query
    | |- reads (sub_recipient _) => apply reads_query
    end.

Lemma reads_filter_stream_authorization u streams :
  reads (filter_stream_authorization u streams).
Proof.
  unfold filter_stream_authorization.
  apply reads_bind; [apply reads_query|]. intros rm.
  apply reads_bind; [apply reads_query|]. intros subs.
  apply reads_bind; [apply reads_add_subscribed|]. intros S.
  apply reads_ret.
Qed.

(** ** What [access_stream_common] computes *)

Lemma access_stream_common_eval db u s err r :
  stream_realm_id s = realm_id u →
  Recipient_rows db STREAM (stream_id s) = [r] →
  eval (access_stream_common u s err) db =
    match Subscription_rows db u r with
    | [] => if is_public s then Return (r, None) else Raise (JsonableError err)
    | [sub] => Return (r, Some sub)
    | _ => Raise (MultipleObjectsReturned MSubscription)
    end.
Proof.
  intros Hrealm Hr. unfold access_stream_common.
  rewrite Hrealm, Z.eqb_refl; simpl.
  unfold eval, run, mbind, M_bind, get_recipient, query; simpl.
  rewrite Hr; simpl.
  unfold try_except, fmap, M_fmap, Subscription_objects_get, query; simpl.
  destruct (Subscription_rows db u r) as [|sub [|sub' rows]]; simpl;
    by destruct (is_public s).
Qed.

Lemma recipient_rows_wf db s r :
  db_wf db → recipient_of db s r →
  Recipient_rows db STREAM (stream_id s) = [r].
Proof.
  intros Hwf (Hin & Hk & Ht). unfold Recipient_rows.
  apply (filter_keyed_elem (λ r, (rtype r, type_id r))); [apply Hwf| |done..].
  intros y [-> ->]. by rewrite Hk, Ht.
Qed.

Lemma elem_of_Subscription_rows db u r sub :
  sub ∈ Subscription_rows db u r ↔ active_subscription db u r sub.
Proof.
  unfold Subscription_rows, active_subscription.
  rewrite list_elem_of_filter. tauto.
Qed.

Lemma subscription_rows_wf db u r :
  db_wf db →
  Subscription_rows db u r = [] ∨ ∃ sub, Subscription_rows db u r = [sub].
Proof.
  intros Hwf. unfold Subscription_rows.
  set (P := λ sub, sub_user_profile_id sub = user_id u
                   ∧ sub_recipient_id sub = recipient_id r ∧ active sub = true).
  assert (E : filter P (Subscription_objects db)
              = filter P (filter (λ sub, active sub = true) (Subscription_objects db))).
  { rewrite list_filter_filter. apply list_filter_iff. unfold P. tauto. }
  rewrite E.
  apply (filter_keyed (λ sub, (sub_user_profile_id sub, sub_recipient_id sub))
                      P _ (user_id u, recipient_id r)); [apply Hwf|].
  intros y (-> & -> & _). done.
Qed.

(** The three answers of [access_stream_common] in a well-formed
    database, for a stream of the user's realm with recipient [r]. *)
Lemma access_stream_common_cases db u s err r :
  db_wf db → recipient_of db s r → stream_realm_id s = realm_id u →
  (∃ sub, active_subscription db u r sub
          ∧ eval (access_stream_common u s err) db = Return (r, Some sub))
  ∨ ((∀ sub, ¬ active_subscription db u r sub)
     ∧ eval (access_stream_common u s err) db =
         if is_public s then Return (r, None) else Raise (JsonableError err)).
Proof.
  intros Hwf Hr Hrealm.
  rewrite (access_stream_common_eval db u s err r Hrealm (recipient_rows_wf _ _ _ Hwf Hr)).
  destruct (subscription_rows_wf db u r Hwf) as [E|[sub E]].
  - right. split; [|by rewrite E].
    intros sub Hs. apply elem_of_Subscription_rows in Hs.
    rewrite E in Hs. by apply not_elem_of_nil in Hs.
  - left. exists sub. split; [|by rewrite E].
    apply elem_of_Subscription_rows. rewrite E. by left.
Qed.

Lemma Sample_db_wf : db_wf Sample.db.
Proof. split; compute_done. Qed.

Lemma cross_realm_eval db u s err :
  stream_realm_id s ≠ realm_id u →
  run (access_stream_common u s err) db
  = (Raise (JsonableError err), {| world_db := db; world_log := [] |}).
Proof.
  intros Hne. unfold access_stream_common.
  apply Z.eqb_neq in Hne. by rewrite Hne.
Qed.

(** ** The scenarios of the specification, run on the sample tables *)

Example public_unsubscribed_scenario :
  eval (access_stream_common Sample.U Sample.S1 "denied") Sample.db
  = Return (Sample.R1, None).
Proof. reflexivity. Qed.

Example private_subscribed_scenario :
  eval (access_stream_common Sample.U Sample.S2 "denied") Sample.db
  = Return (Sample.R2, Some Sample.Sub2).
Proof. reflexivity. Qed.

Example private_unsubscribed_scenario :
  eval (access_stream_by_id Sample.english Sample.U 3) Sample.db
  = Raise (JsonableError "Invalid stream id").
Proof. reflexivity. Qed.

Example other_realm_scenario :
  eval (access_stream_by_id Sample.english Sample.U 4) Sample.db
  = eval (access_stream_by_id Sample.english Sample.U 404) Sample.db.
Proof. reflexivity. Qed.

Example filter_scenario :
  eval (filter_stream_authorization Sample.U [Sample.S1; Sample.S2; Sample.S3])
       Sample.db
  = Return ([Sample.S1; Sample.S2], [Sample.S3]).
Proof. reflexivity. Qed.

(** Two objects for one id that disagree on [invite_only]: the id lands
    in the unauthorized set because of one, and the other is dropped
    from the authorized list with it. *)
Example stale_copy_scenario :
  eval (filter_stream_authorization Sample.U [Sample.S3_stale; Sample.S3])
       Sample.db
  = Return ([], [Sample.S3]).
Proof. reflexivity. Qed.

(** ** The access predicate *)

(** C1.  For a private (invite_only) stream of the user's realm, in a
    database that satisfies its integrity constraints and holds the
    recipient [r] of the stream: [access_stream_common] succeeds if and
    only if the user has an active subscription to [r]; when it
    succeeds it returns [r] and that subscription; when it fails it
    raises [JsonableError] with the error text the caller passed. *)
Theorem private_stream_access_iff_subscribed
    (db : Db) (user_profile : UserProfile) (stream : Stream) (error : string)
    (r : Recipient) :
  db_wf db → recipient_of db stream r →
  stream_realm_id stream = realm_id user_profile →
  invite_only stream = true →
  ((∃ v, eval (access_stream_common user_profile stream error) db = Return v)
     ↔ ∃ sub, active_subscription db user_profile r sub)
  ∧ (∀ v, eval (access_stream_common user_profile stream error) db = Return v →
       ∃ sub, active_subscription db user_profile r sub ∧ v = (r, Some sub))
  ∧ (∀ e, eval (access_stream_common user_profile stream error) db = Raise e →
       e = JsonableError error).
Proof.
  intros Hwf Hr Hrealm Hpriv.
  destruct (access_stream_common_cases db user_profile stream error r Hwf Hr Hrealm)
    as [(sub & Hs & ->)|[Hn ->]].
  - split; [|split].
    + split; eauto.
    + intros v [= <-]. eauto.
    + intros e [=].
  - unfold is_public. rewrite Hpriv; simpl. split; [|split].
    + split; [intros [v [=]]|intros [sub Hs]; by destruct (Hn sub)].
    + intros v [=].
    + by intros e [= <-].
Qed.

Lemma private_stream_access_subscribed_witness :
  let call := access_stream_common Sample.U Sample.S2 "denied" in
  ((∃ v, eval call Sample.db = Return v)
     ↔ ∃ sub, active_subscription Sample.db Sample.U Sample.R2 sub)
  ∧ (∀ v, eval call Sample.db = Return v →
       ∃ sub, active_subscription Sample.db Sample.U Sample.R2 sub
              ∧ v = (Sample.R2, Some sub))
  ∧ (∀ e, eval call Sample.db = Raise e → e = JsonableError "denied").
Proof.
  apply (private_stream_access_iff_subscribed
           Sample.db Sample.U Sample.S2 "denied" Sample.R2).
  - apply Sample_db_wf.
  - split; [set_solver|done].
  - reflexivity.
  - reflexivity.
Defined.

(** C2.  For a stream of another realm, [access_stream_common] raises
    [JsonableError] with the caller's error text whatever the tables
    hold and whatever the stream's flag is; it does so before any
    lookup (the log of calls stays empty). *)
Theorem cross_realm_access_denied
    (db : Db) (user_profile : UserProfile) (stream : Stream) (error : string) :
  stream_realm_id stream ≠ realm_id user_profile →
  run (access_stream_common user_profile stream error) db
  = (Raise (JsonableError error), {| world_db := db; world_log := [] |}).
Proof.
  intros Hne.
  rewrite (cross_realm_eval db user_profile stream error Hne).
  reflexivity.
Qed.

Lemma cross_realm_access_denied_witness :
  run (access_stream_common Sample.U Sample.S4 "denied") Sample.db
  = (Raise (JsonableError "denied"), {| world_db := Sample.db; world_log := [] |}).
Proof.
  apply (cross_realm_access_denied Sample.db Sample.U Sample.S4 "denied").
  vm_compute. discriminate.
Defined.

(** C3.  For a public (not invite_only) stream of the user's realm, in a
    database that satisfies its integrity constraints and holds the
    recipient [r] of the stream: [access_stream_common] succeeds
    whatever the subscriptions are, and returns [r] with the user's
    active subscription to [r] when there is one and with [None] when
    there is none. *)
Theorem public_stream_access_granted
    (db : Db) (user_profile : UserProfile) (stream : Stream) (error : string)
    (r : Recipient) :
  db_wf db → recipient_of db stream r →
  stream_realm_id stream = realm_id user_profile →
  invite_only stream = false →
  ∃ sub, eval (access_stream_common user_profile stream error) db = Return (r, sub)
         ∧ match sub with
           | Some sub => active_subscription db user_profile r sub
           | None => ∀ sub, ¬ active_subscription db user_profile r sub
           end.
Proof.
  intros Hwf Hr Hrealm Hpub.
  destruct (access_stream_common_cases db user_profile stream error r Hwf Hr Hrealm)
    as [(sub & Hs & ->)|[Hn ->]].
  - by exists (Some sub).
  - exists None. unfold is_public. by rewrite Hpub.
Qed.

Lemma public_stream_access_granted_witness :
  ∃ sub, eval (access_stream_common Sample.U Sample.S1 "denied") Sample.db
         = Return (Sample.R1, sub)
         ∧ match sub with
           | Some sub => active_subscription Sample.db Sample.U Sample.R1 sub
           | None => ∀ sub, ¬ active_subscription Sample.db Sample.U Sample.R1 sub
           end.
Proof.
  apply (public_stream_access_granted Sample.db Sample.U Sample.S1 "denied" Sample.R1).
  - apply Sample_db_wf.
  - split; [set_solver|done].
  - reflexivity.
  - reflexivity.
Defined.

(** ** Lookup by id and by name *)

Lemma access_stream_by_id_eval g db u id :
  eval (access_stream_by_id g u id) db =
    match Stream_rows db id with
    | [] => Raise (JsonableError (g "Invalid stream id"))
    | [s] =>
        match eval (access_stream_common u s (g "Invalid stream id")) db with
        | Return (r, sub) => Return (s, r, sub)
        | Raise e => Raise e
        end
    | _ => Raise (MultipleObjectsReturned MStream)
    end.
Proof.
  unfold access_stream_by_id. rewrite eval_bind.
  - unfold eval at 1. unfold run, try_except, Stream_objects_get, query; simpl.
    destruct (Stream_rows db id) as [|s [|s' rows]]; simpl; try done.
    rewrite eval_bind; [|apply reads_access_stream_common|].
    + by destruct (eval (access_stream_common u s _) db) as [[r sub]|e].
    + intros [r sub]. apply reads_ret.
  - apply reads_try_except; [apply reads_query|].
    intros [|[]|] k E; simplify_eq. apply reads_raise.
  - intros s. apply reads_bind; [apply reads_access_stream_common|].
    intros [r sub]. apply reads_ret.
Qed.

Lemma access_stream_by_name_eval g db u name :
  eval (access_stream_by_name g u name) db =
    match eval (get_stream name (realm u)) db with
    | Return None => Raise (JsonableError (g (invalid_stream_name name)))
    | Return (Some s) =>
        match eval (access_stream_common u s (g (invalid_stream_name name))) db with
        | Return (r, sub) => Return (s, r, sub)
        | Raise e => Raise e
        end
    | Raise e => Raise e
    end.
Proof.
  unfold access_stream_by_name. rewrite eval_bind; [|apply reads_query|].
  - destruct (eval (get_stream name (realm u)) db) as [[s|]|e]; try done.
    rewrite eval_bind; [|apply reads_access_stream_common|].
    + by destruct (eval (access_stream_common u s _) db) as [[r sub]|e].
    + intros [r sub]. apply reads_ret.
  - intros [s|]; [|apply reads_raise].
    apply reads_bind; [apply reads_access_stream_common|].
    intros [r sub]. apply reads_ret.
Qed.

(** Whatever the tables hold, a [JsonableError] that comes out of
    [access_stream_common] carries the text the caller passed. *)
Lemma access_stream_common_error_text db u s err e :
  eval (access_stream_common u s err) db = Raise (JsonableError e) → e = err.
Proof.
  unfold access_stream_common.
  destruct (negb _); [by intros [= <-]|].
  unfold eval, run, mbind, M_bind, get_recipient, query; simpl.
  destruct (Recipient_rows db STREAM (stream_id s)) as [|r [|r' rows]]; simpl;
    [done| |done].
  unfold try_except, fmap, M_fmap, Subscription_objects_get, query; simpl.
  destruct (Subscription_rows db u r) as [|sub [|sub' rows]]; simpl;
    destruct (is_public s); simpl; try done.
  by intros [= <-].
Qed.

Lemma stream_rows_wf db s :
  db_wf db → s ∈ Stream_objects db → Stream_rows db (stream_id s) = [s].
Proof.
  intros Hwf Hs. unfold Stream_rows.
  by apply (filter_keyed_elem stream_id); [apply Hwf|..].
Qed.

Lemma get_stream_error db name rlm e :
  eval (get_stream name rlm) db ≠ Raise (JsonableError e).
Proof.
  unfold eval, run, get_stream, query; simpl.
  by destruct (Stream_rows_named db name (realm_pk rlm)) as [|s' [|s'' rows]].
Qed.

Lemma get_stream_found db name rlm s :
  eval (get_stream name rlm) db = Return (Some s) →
  s ∈ Stream_objects db ∧ stream_name s = name ∧ stream_realm_id s = realm_pk rlm.
Proof.
  unfold eval, run, get_stream, query; simpl.
  destruct (Stream_rows_named db name (realm_pk rlm)) as [|s' [|s'' rows]] eqn:E;
    simpl; [done| |done].
  intros [= ->].
  assert (Hin : s ∈ Stream_rows_named db name (realm_pk rlm)) by (rewrite E; by left).
  unfold Stream_rows_named in Hin. apply list_elem_of_filter in Hin. tauto.
Qed.

(** C4 (as amended).  [access_stream_by_id] raises the same error, a
    [JsonableError] whose text is [ugettext] applied to the fixed text
    "Invalid stream id", in each of three cases: no stream has the id;
    the stream with the id is private, in the user's realm, and the
    user has no active subscription to its recipient; the stream with
    the id belongs to another realm.  The outcome does not tell the
    cases apart. *)
Theorem invalid_stream_id_hides_existence
    (ugettext : string → string) (db : Db) (user_profile : UserProfile) (id : Z) :
  db_wf db →
  ((∀ s, s ∈ Stream_objects db → stream_id s ≠ id) →
     eval (access_stream_by_id ugettext user_profile id) db
     = Raise (JsonableError (ugettext "Invalid stream id")))
  ∧ (∀ s r, s ∈ Stream_objects db → stream_id s = id →
       recipient_of db s r →
       stream_realm_id s = realm_id user_profile →
       invite_only s = true →
       (∀ sub, ¬ active_subscription db user_profile r sub) →
       eval (access_stream_by_id ugettext user_profile id) db
       = Raise (JsonableError (ugettext "Invalid stream id")))
  ∧ (∀ s, s ∈ Stream_objects db → stream_id s = id →
       stream_realm_id s ≠ realm_id user_profile →
       eval (access_stream_by_id ugettext user_profile id) db
       = Raise (JsonableError (ugettext "Invalid stream id"))).
Proof.
  intros Hwf. rewrite access_stream_by_id_eval. split; [|split].
  - intros Hnone. unfold Stream_rows. rewrite filter_none; [done|].
    intros s Hs. by apply Hnone.
  - intros s r Hs <- Hr Hrealm Hpriv Hnosub.
    rewrite (stream_rows_wf db s Hwf Hs).
    destruct (access_stream_common_cases db user_profile s
                (ugettext "Invalid stream id") r Hwf Hr Hrealm)
      as [(sub & Hsub & _)|[_ ->]].
    + by destruct (Hnosub sub).
    + unfold is_public. by rewrite Hpriv.
  - intros s Hs <- Hrealm.
    rewrite (stream_rows_wf db s Hwf Hs).
    unfold eval. by rewrite cross_realm_eval.
Qed.

Lemma invalid_stream_id_hides_existence_witness :
  eval (access_stream_by_id Sample.english Sample.U 33) Sample.db
  = Raise (JsonableError "Invalid stream id")
  ∧ eval (access_stream_by_id Sample.english Sample.U 3) Sample.db
    = Raise (JsonableError "Invalid stream id")
  ∧ eval (access_stream_by_id Sample.english Sample.U 4) Sample.db
    = Raise (JsonableError "Invalid stream id").
Proof.
  split; [|split].
  - apply (invalid_stream_id_hides_existence
             Sample.english Sample.db Sample.U 33 Sample_db_wf).
    intros s Hs. set_unfold in Hs. by destruct Hs as [->|[->|[->|[->|[]]]]].
  - apply (invalid_stream_id_hides_existence
             Sample.english Sample.db Sample.U 3 Sample_db_wf)
      with (s := Sample.S3) (r := Sample.R3); try done; [set_solver|split; [set_solver|done]|].
    intros sub (Hs & Hu & Hr & Ha). set_unfold in Hs.
    by destruct Hs as [->|[->|[->|[]]]].
  - apply (invalid_stream_id_hides_existence
             Sample.english Sample.db Sample.U 4 Sample_db_wf)
      with (s := Sample.S4); [set_solver|done|done].
Defined.

(** C4, as the claim words it: the text is not "invalid stream id".
    With no translation in force, the lookup of an id that no stream
    has raises "Invalid stream id", with a capital letter. *)
Lemma invalid_stream_id_text_counterexample :
  (∀ s, s ∈ Stream_objects Sample.db → stream_id s ≠ 33)
  ∧ eval (access_stream_by_id Sample.english Sample.U 33) Sample.db
    = Raise (JsonableError "Invalid stream id")
  ∧ eval (access_stream_by_id Sample.english Sample.U 33) Sample.db
    ≠ Raise (JsonableError "invalid stream id").
Proof.
  split; [|split].
  - intros s Hs. set_unfold in Hs. by destruct Hs as [->|[->|[->|[->|[]]]]].
  - reflexivity.
  - vm_compute. discriminate.
Qed.

(** C8.  [access_stream_by_name] looks the name up in the user's realm
    (its first call is [get_stream] with that name and that realm, and
    a stream it finds has the name and belongs to the realm); when the
    name is not found, and when the stream is found but
    [access_stream_common] denies access, it raises [JsonableError]
    with the same text: [ugettext] applied to "Invalid stream name '",
    the queried name, and a closing quote.  No other [JsonableError]
    text comes out of it. *)
Theorem invalid_stream_name_echoes_name
    (ugettext : string → string) (db : Db) (user_profile : UserProfile)
    (name : string) :
  (∃ rest, calls (access_stream_by_name ugettext user_profile name) db
           = Call_get_stream name (realm_id user_profile) :: rest)
  ∧ (∀ s, eval (get_stream name (realm user_profile)) db = Return (Some s) →
       stream_name s = name ∧ stream_realm_id s = realm_id user_profile)
  ∧ (eval (get_stream name (realm user_profile)) db = Return None →
       eval (access_stream_by_name ugettext user_profile name) db
       = Raise (JsonableError (ugettext ("Invalid stream name '" +:+ name +:+ "'"))))
  ∧ (∀ s e, eval (get_stream name (realm user_profile)) db = Return (Some s) →
       eval (access_stream_common user_profile s
               (ugettext ("Invalid stream name '" +:+ name +:+ "'"))) db
       = Raise (JsonableError e) →
       eval (access_stream_by_name ugettext user_profile name) db
       = Raise (JsonableError (ugettext ("Invalid stream name '" +:+ name +:+ "'"))))
  ∧ (∀ e, eval (access_stream_by_name ugettext user_profile name) db
          = Raise (JsonableError e) →
       e = ugettext ("Invalid stream name '" +:+ name +:+ "'")).
Proof.
  split; [|split; [|split; [|split]]].
  - unfold access_stream_by_name.
    rewrite calls_bind; [by eexists|apply reads_query|].
    intros [s|]; [|apply reads_raise].
    apply reads_bind; [apply reads_access_stream_common|].
    intros [r sub]. apply reads_ret.
  - intros s Hs. apply get_stream_found in Hs. tauto.
  - intros Hnone. by rewrite access_stream_by_name_eval, Hnone.
  - intros s e Hs He. rewrite access_stream_by_name_eval, Hs.
    fold (invalid_stream_name name) in He |- *. rewrite He.
    by rewrite (access_stream_common_error_text _ _ _ _ _ He).
  - intros e. rewrite access_stream_by_name_eval.
    fold (invalid_stream_name name).
    destruct (eval (get_stream name (realm user_profile)) db) as [[s|]|e'] eqn:G;
      [|by intros [= <-]|intros [= ->]].
    + destruct (eval (access_stream_common user_profile s _) db) as [[r sub]|e'] eqn:E;
        [done|]. intros [= ->].
      by apply access_stream_common_error_text in E.
    + by apply get_stream_error in G.
Qed.

Lemma invalid_stream_name_echoes_name_witness :
  eval (access_stream_by_name Sample.english Sample.U "nowhere") Sample.db
  = Raise (JsonableError "Invalid stream name 'nowhere'")
  ∧ eval (access_stream_by_name Sample.english Sample.U "board") Sample.db
    = Raise (JsonableError "Invalid stream name 'board'").
Proof.
  split.
  - apply (invalid_stream_name_echoes_name Sample.english Sample.db Sample.U "nowhere").
    reflexivity.
  - apply (invalid_stream_name_echoes_name Sample.english Sample.db Sample.U "board")
      with (s := Sample.S3) (e := "Invalid stream name 'board'"); reflexivity.
Defined.

(** ** The bulk filter *)

Lemma NoDup_fmap_inj_on {A B} (f : A → B) (l : list A) (x y : A) :
  NoDup (f <$> l) → x ∈ l → y ∈ l → f x = f y → x = y.
Proof.
  induction l as [|a l IH]; intros Hnd Hx Hy Hf.
  - by apply not_elem_of_nil in Hx.
  - rewrite fmap_cons in Hnd. apply NoDup_cons in Hnd as [Ha Hnd].
    apply elem_of_cons in Hx as [->|Hx]; apply elem_of_cons in Hy as [->|Hy].
    + done.
    + destruct Ha. rewrite Hf. by apply list_elem_of_fmap_2.
    + destruct Ha. rewrite <- Hf. by apply list_elem_of_fmap_2.
    + by apply IH.
Qed.

Lemma elem_of_Recipient_rows_bulk db tids r :
  r ∈ Recipient_rows_bulk db STREAM tids
  ↔ r ∈ Recipient_objects db ∧ rtype r = STREAM ∧ type_id r ∈ tids.
Proof. unfold Recipient_rows_bulk. rewrite list_elem_of_filter. tauto. Qed.

(** The values of the dictionary are the rows the bulk lookup found. *)
Lemma dict_values_recipients_found db streams :
  db_wf db →
  dict_values (recipients_found db streams)
  ≡ₚ Recipient_rows_bulk db STREAM (stream_id <$> streams).
Proof.
  intros Hwf. unfold dict_values, recipients_found.
  set (rows := Recipient_rows_bulk db STREAM (stream_id <$> streams)).
  rewrite map_to_list_to_map.
  - rewrite <- list_fmap_compose. simpl. by rewrite list_fmap_id.
  - rewrite <- list_fmap_compose. simpl.
    apply NoDup_fmap_2_strong.
    + intros x y Hx Hy Hxy.
      apply elem_of_Recipient_rows_bulk in Hx as (Hx & Hkx & _).
      apply elem_of_Recipient_rows_bulk in Hy as (Hy & Hky & _).
      apply (NoDup_fmap_inj_on (λ r, (rtype r, type_id r)) (Recipient_objects db));
        [apply Hwf|done..|].
      simpl in Hxy. by rewrite Hkx, Hky, Hxy.
    + apply NoDup_filter. eapply NoDup_fmap_1, (wf_recipient_pk db Hwf).
Qed.

Lemma elem_of_dict_values_recipients_found db streams r :
  db_wf db →
  r ∈ dict_values (recipients_found db streams)
  ↔ r ∈ Recipient_objects db ∧ rtype r = STREAM
    ∧ type_id r ∈ (stream_id <$> streams).
Proof.
  intros Hwf. rewrite (dict_values_recipients_found db streams Hwf).
  apply elem_of_Recipient_rows_bulk.
Qed.

Lemma recipient_rows_pk_wf db r :
  db_wf db → r ∈ Recipient_objects db →
  Recipient_rows_pk db (recipient_id r) = [r].
Proof.
  intros Hwf Hr. unfold Recipient_rows_pk.
  by apply (filter_keyed_elem recipient_id); [apply Hwf|..].
Qed.

Lemma elem_of_subs_found db u streams sub :
  db_wf db →
  sub ∈ subs_found db u streams
  ↔ ∃ r, r ∈ Recipient_objects db ∧ rtype r = STREAM
         ∧ type_id r ∈ (stream_id <$> streams)
         ∧ active_subscription db u r sub.
Proof.
  intros Hwf. unfold subs_found, Subscription_rows_in, active_subscription.
  rewrite list_elem_of_filter, list_elem_of_fmap. split.
  - intros ((Hu & (r & Hrid & Hr) & Ha) & Hs).
    apply (elem_of_dict_values_recipients_found db streams r Hwf) in Hr.
    exists r. tauto.
  - intros (r & Hr & Hk & Ht & Hs & Hu & Hrid & Ha).
    repeat split; try done. exists r. split; [done|].
    by apply (elem_of_dict_values_recipients_found db streams r Hwf).
Qed.

Lemma subscribed_iff db u s :
  subscribed db u s
  ↔ ∃ r sub, recipient_of db s r ∧ active_subscription db u r sub.
Proof.
  unfold subscribed, recipient_of, active_subscription.
  rewrite Exists_exists. split.
  - intros (r & Hr & (Hk & Ht) & Hex). apply Exists_exists in Hex as (sub & Hs & H).
    exists r, sub. tauto.
  - intros (r & sub & (Hr & Hk & Ht) & Hs & H).
    exists r. split; [done|]. split; [done|].
    apply Exists_exists. by exists sub.
Qed.

Lemma sub_recipient_eval db sub r :
  Recipient_rows_pk db (sub_recipient_id sub) = [r] →
  eval (sub_recipient sub) db = Return r
  ∧ calls (sub_recipient sub) db = [Call_load_recipient (sub_recipient_id sub)].
Proof. intros E. unfold eval, calls, run, sub_recipient, query; simpl. by rewrite E. Qed.

(** The first loop, when every foreign key resolves: it returns the
    set of the [type_id]s behind the subscriptions, and loads one
    recipient for each subscription. *)
Lemma add_subscribed_run db subs (acc : gset Z) :
  (∀ sub, sub ∈ subs → ∃ r, Recipient_rows_pk db (sub_recipient_id sub) = [r]) →
  ∃ S : gset Z,
    eval (add_subscribed subs acc) db = Return S
    ∧ calls (add_subscribed subs acc) db
      = (λ sub, Call_load_recipient (sub_recipient_id sub)) <$> subs
    ∧ ∀ x, x ∈ S ↔
        x ∈ acc ∨ ∃ sub r, sub ∈ subs
                           ∧ Recipient_rows_pk db (sub_recipient_id sub) = [r]
                           ∧ type_id r = x.
Proof.
  revert acc. induction subs as [|sub subs IH]; intros acc Hfk.
  - exists acc. repeat split; [tauto|].
    intros [?|(sub & r & Hin & _)]; [done|]. by apply not_elem_of_nil in Hin.
  - destruct (Hfk sub) as [r Hr]; [by left|].
    destruct (sub_recipient_eval db sub r Hr) as [He Hc].
    destruct (IH ({[type_id r]} ∪ acc)) as (S & HS & HC & Hmem).
    { intros sub' Hin. apply Hfk. by right. }
    exists S. simpl.
    rewrite eval_bind, calls_bind, He, Hc by solve_reads.
    split; [done|]. split; [by rewrite HC|].
    intros x. rewrite Hmem. set_unfold. split.
    + intros [[->|Hx]|(sub' & r' & Hin & Hr' & Ht)].
      * right. exists sub, r. auto.
      * by left.
      * right. exists sub', r'. auto.
    + intros [Hx|(sub' & r' & [->|Hin] & Hr' & Ht)].
      * left. by right.
      * left. left. rewrite Hr in Hr'. by simplify_eq.
      * right. exists sub', r'. auto.
Qed.

Lemma foldl_collect_unauthorized (S : gset Z) (acc streams : list Stream) :
  foldl (collect_unauthorized S) acc streams
  = acc ++ filter (λ s, (stream_id s ∉ S) ∧ invite_only s = true) streams.
Proof.
  revert acc. induction streams as [|s streams IH]; intros acc; simpl.
  - by rewrite app_nil_r.
  - rewrite IH, filter_cons. unfold collect_unauthorized.
    destruct (decide (stream_id s ∈ S)) as [Hin|Hin].
    + rewrite decide_False; [done|]. tauto.
    + destruct (invite_only s) eqn:Hinv.
      * rewrite decide_True; [|done]. by rewrite <- app_assoc.
      * rewrite decide_False; [done|]. intros [_ ?]. done.
Qed.

(** What [filter_stream_authorization] returns and which calls it
    makes, in a database that satisfies its integrity constraints. *)
Lemma filter_stream_authorization_run db u streams :
  db_wf db →
  eval (filter_stream_authorization u streams) db
  = Return (filter (λ s, stream_id s ∉
                      (stream_id <$> filter (unauthorized_for db u) streams))
                   streams,
            filter (unauthorized_for db u) streams)
  ∧ calls (filter_stream_authorization u streams) db
    = Call_bulk_get_recipients STREAM (stream_id <$> streams)
      :: Call_Subscription_filter
           (user_id u) (recipient_id <$> dict_values (recipients_found db streams))
      :: ((λ sub, Call_load_recipient (sub_recipient_id sub))
            <$> subs_found db u streams).
Proof.
  intros Hwf.
  destruct (add_subscribed_run db (subs_found db u streams) ∅)
    as (S & HS & HC & Hmem).
  { intros sub Hsub.
    apply (elem_of_subs_found db u streams sub Hwf) in Hsub
      as (r & Hr & _ & _ & _ & _ & Hrid & _).
    exists r. rewrite Hrid. by apply recipient_rows_pk_wf. }
  assert (Hsubscribed : ∀ s, s ∈ streams → (stream_id s ∈ S ↔ subscribed db u s)).
  { intros s Hs. rewrite Hmem, subscribed_iff. split.
    - intros [Hx|(sub & r & Hsub & Hrows & Ht)]; [set_solver|].
      apply (elem_of_subs_found db u streams sub Hwf) in Hsub
        as (r' & Hr' & Hk & _ & Hact).
      assert (r = r') as ->.
      { destruct Hact as (_ & _ & Hrid & _). rewrite Hrid in Hrows.
        rewrite (recipient_rows_pk_wf db r' Hwf Hr') in Hrows. by simplify_eq. }
      exists r', sub. split; [by repeat split|done].
    - intros (r & sub & (Hr & Hk & Ht) & Hact). right. exists sub, r.
      split; [|split; [|done]].
      + apply (elem_of_subs_found db u streams sub Hwf). exists r.
        repeat split; try done; try apply Hact.
        rewrite Ht. by apply list_elem_of_fmap_2.
      + destruct Hact as (_ & _ & -> & _). by apply recipient_rows_pk_wf. }
  assert (Hunauth : foldl (collect_unauthorized S) [] streams
                    = filter (unauthorized_for db u) streams).
  { rewrite foldl_collect_unauthorized. simpl.
    apply filter_iff_in. intros s Hs. unfold unauthorized_for.
    rewrite (Hsubscribed s Hs). tauto. }
  unfold filter_stream_authorization.
  rewrite eval_bind, calls_bind; try solve_reads.
  change (eval (bulk_get_recipients STREAM (stream_id <$> streams)) db)
    with (Return (recipients_found db streams)).
  cbv iota beta.
  rewrite eval_bind, calls_bind; try solve_reads.
  change (eval (Subscription_objects_filter u
                  (dict_values (recipients_found db streams))) db)
    with (Return (subs_found db u streams)).
  cbv iota beta.
  rewrite eval_bind, calls_bind; try solve_reads.
  rewrite HS, HC, Hunauth. split; [|by rewrite app_nil_r].
  unfold eval, run; simpl. do 2 f_equal.
  apply list_filter_iff. intros s. by rewrite elem_of_list_to_set.
Qed.

Lemma subscribed_same_id db u s s' :
  stream_id s = stream_id s' → subscribed db u s ↔ subscribed db u s'.
Proof. intros E. unfold subscribed. by rewrite E. Qed.

Lemma elem_of_unauthorized db u (streams : list Stream) s :
  s ∈ filter (unauthorized_for db u) streams
  ↔ s ∈ streams ∧ invite_only s = true ∧ ¬ subscribed db u s.
Proof. rewrite list_elem_of_filter. unfold unauthorized_for. tauto. Qed.

(** With flags that agree on equal ids, an entry whose id is the id of
    an unauthorized entry is unauthorized itself. *)
Lemma unauthorized_by_id db u (streams : list Stream) s :
  same_id_same_flag streams → s ∈ streams →
  stream_id s ∈ (stream_id <$> filter (unauthorized_for db u) streams) →
  s ∈ filter (unauthorized_for db u) streams.
Proof.
  intros Hflag Hs Hid. apply list_elem_of_fmap in Hid as (s' & Hid & Hs').
  apply elem_of_unauthorized in Hs' as (Hs' & Hinv & Hsub).
  apply elem_of_unauthorized. split; [done|]. split.
  - by rewrite (Hflag s s' Hs Hs' Hid).
  - by rewrite (subscribed_same_id db u s s' Hid).
Qed.

(** Rows of the stream table, listed in any order and any number of
    times, agree on [invite_only] wherever they agree on the id. *)
Lemma table_rows_same_flag db (streams : list Stream) :
  db_wf db → (∀ s, s ∈ streams → s ∈ Stream_objects db) →
  same_id_same_flag streams.
Proof.
  intros Hwf Hrows s1 s2 H1 H2 Hid.
  by rewrite (NoDup_fmap_inj_on stream_id (Stream_objects db) s1 s2
                (wf_stream_pk db Hwf) (Hrows s1 H1) (Hrows s2 H2) Hid).
Qed.

(** C5.  In a database that satisfies its integrity constraints,
    [filter_stream_authorization] returns, and a stream is in the
    unauthorized list if and only if it is an input stream that is
    invite_only and to whose recipient the user has no active
    subscription; a stream that is not invite_only is never in the
    unauthorized list. *)
Theorem unauthorized_iff_private_and_unsubscribed
    (db : Db) (user_profile : UserProfile) (streams : list Stream) :
  db_wf db →
  ∃ authorized unauthorized,
    eval (filter_stream_authorization user_profile streams) db
    = Return (authorized, unauthorized)
    ∧ (∀ s, s ∈ unauthorized ↔
         s ∈ streams ∧ invite_only s = true
         ∧ ¬ ∃ r sub, recipient_of db s r
                      ∧ active_subscription db user_profile r sub)
    ∧ (∀ s, invite_only s = false → s ∉ unauthorized).
Proof.
  intros Hwf.
  destruct (filter_stream_authorization_run db user_profile streams Hwf) as [He _].
  eexists _, _. split; [exact He|]. split.
  - intros s. rewrite elem_of_unauthorized, subscribed_iff. tauto.
  - intros s Hpub Hin. apply elem_of_unauthorized in Hin as (_ & Hinv & _).
    congruence.
Qed.

Lemma unauthorized_iff_private_and_unsubscribed_witness :
  ∃ authorized unauthorized,
    eval (filter_stream_authorization Sample.U [Sample.S1; Sample.S2; Sample.S3])
         Sample.db
    = Return (authorized, unauthorized)
    ∧ (∀ s, s ∈ unauthorized ↔
         s ∈ [Sample.S1; Sample.S2; Sample.S3] ∧ invite_only s = true
         ∧ ¬ ∃ r sub, recipient_of Sample.db s r
                      ∧ active_subscription Sample.db Sample.U r sub)
    ∧ (∀ s, invite_only s = false → s ∉ unauthorized).
Proof.
  apply (unauthorized_iff_private_and_unsubscribed
           Sample.db Sample.U [Sample.S1; Sample.S2; Sample.S3]).
  apply Sample_db_wf.
Defined.

(** C6.  In a database that satisfies its integrity constraints,
    [filter_stream_authorization] returns, and the authorized list is
    the input list, in its order, without the entries whose id is the
    id of an unauthorized stream; the entries of an id that is not
    unauthorized are all kept, repeated ones included; the two lists
    together hold the streams of the input and no others (streams
    compared by id, as model instances are; and entry by entry when
    entries of the same id agree on [invite_only]). *)
Theorem authorized_is_input_minus_unauthorized
    (db : Db) (user_profile : UserProfile) (streams : list Stream) :
  db_wf db →
  ∃ authorized unauthorized,
    eval (filter_stream_authorization user_profile streams) db
    = Return (authorized, unauthorized)
    ∧ authorized
      = filter (λ s, stream_id s ∉ (stream_id <$> unauthorized)) streams
    ∧ (∀ id, id ∉ (stream_id <$> unauthorized) →
         filter (λ s, stream_id s = id) authorized
         = filter (λ s, stream_id s = id) streams)
    ∧ (∀ s, occurs s (authorized ++ unauthorized) ↔ occurs s streams)
    ∧ (same_id_same_flag streams →
         ∀ s, s ∈ authorized ++ unauthorized ↔ s ∈ streams).
Proof.
  intros Hwf.
  destruct (filter_stream_authorization_run db user_profile streams Hwf) as [He _].
  eexists _, _. split; [exact He|].
  set (unauth := filter (unauthorized_for db user_profile) streams).
  split; [done|]. split; [|split].
  - intros id Hid. rewrite list_filter_filter. apply list_filter_iff.
    intros s. split; [tauto|]. intros <-. done.
  - intros s. unfold occurs. rewrite fmap_app, elem_of_app.
    rewrite !list_elem_of_fmap. split.
    + intros [(s' & E & Hin)|(s' & E & Hin)]; exists s'; split; try done;
        apply list_elem_of_filter in Hin; tauto.
    + intros (s' & E & Hin).
      destruct (decide (stream_id s' ∈ (stream_id <$> unauth))) as [Hu|Hu].
      * right. apply list_elem_of_fmap in Hu as (s'' & E' & Hin').
        exists s''. split; [congruence|done].
      * left. exists s'. split; [done|]. by apply list_elem_of_filter.
  - intros Hflag s. rewrite elem_of_app, list_elem_of_filter. split.
    + intros [[_ Hin]|Hin]; [done|]. apply list_elem_of_filter in Hin. tauto.
    + intros Hin.
      destruct (decide (stream_id s ∈ (stream_id <$> unauth))) as [Hu|Hu].
      * right. by apply unauthorized_by_id.
      * by left.
Qed.

Lemma authorized_is_input_minus_unauthorized_witness :
  ∃ authorized unauthorized,
    eval (filter_stream_authorization Sample.U
            [Sample.S1; Sample.S3; Sample.S2; Sample.S1; Sample.S3]) Sample.db
    = Return (authorized, unauthorized)
    ∧ authorized = [Sample.S1; Sample.S2; Sample.S1]
    ∧ (∀ s, s ∈ authorized ++ unauthorized
            ↔ s ∈ [Sample.S1; Sample.S3; Sample.S2; Sample.S1; Sample.S3]).
Proof.
  destruct (authorized_is_input_minus_unauthorized Sample.db Sample.U
              [Sample.S1; Sample.S3; Sample.S2; Sample.S1; Sample.S3] Sample_db_wf)
    as (authorized & unauthorized & He & Ha & _ & _ & Hall).
  exists authorized, unauthorized. split; [exact He|]. split.
  - vm_compute in He. injection He as <- <-. reflexivity.
  - apply Hall, (table_rows_same_flag Sample.db); [apply Sample_db_wf|].
    intros s Hs. set_unfold. tauto.
Defined.

(** C7.  [filter_stream_authorization] does not look at realms: in a
    database that satisfies its integrity constraints, a stream that is
    not invite_only is classified as authorized whatever its realm.
    Passed alone, it comes back as the authorized list, with nothing
    unauthorized; passed in any list (the entries of one id agreeing on
    the flag), it is in the authorized list and not in the unauthorized
    one.  When its realm is not the user's, [access_stream_common]
    rejects the same stream. *)
Theorem public_stream_authorized_in_any_realm
    (db : Db) (user_profile : UserProfile) (s : Stream) :
  db_wf db → invite_only s = false →
  eval (filter_stream_authorization user_profile [s]) db = Return ([s], [])
  ∧ (∀ streams, same_id_same_flag streams → s ∈ streams →
       ∃ authorized unauthorized,
         eval (filter_stream_authorization user_profile streams) db
         = Return (authorized, unauthorized)
         ∧ s ∈ authorized ∧ (s ∉ unauthorized))
  ∧ (stream_realm_id s ≠ realm_id user_profile →
       ∀ error, eval (access_stream_common user_profile s error) db
                = Raise (JsonableError error)).
Proof.
  intros Hwf Hpub.
  assert (Hnot : ¬ unauthorized_for db user_profile s).
  { intros [Hinv _]. congruence. }
  split; [|split].
  - destruct (filter_stream_authorization_run db user_profile [s] Hwf) as [-> _].
    rewrite (filter_cons_False (unauthorized_for db user_profile) s []) by done.
    rewrite filter_nil, filter_cons_True; [done|]. apply not_elem_of_nil.
  - intros streams Hflag Hs.
    destruct (filter_stream_authorization_run db user_profile streams Hwf) as [He _].
    assert (Hout : s ∉ filter (unauthorized_for db user_profile) streams).
    { intros Hin. apply list_elem_of_filter in Hin. tauto. }
    eexists _, _. split; [exact He|]. split; [|done].
    apply list_elem_of_filter. split; [|done].
    intros Hid. by apply Hout, unauthorized_by_id.
  - intros Hrealm error. unfold eval. by rewrite cross_realm_eval.
Qed.

Lemma public_stream_authorized_in_any_realm_witness :
  eval (filter_stream_authorization Sample.U [Sample.S4]) Sample.db
  = Return ([Sample.S4], [])
  ∧ (∃ authorized unauthorized,
       eval (filter_stream_authorization Sample.U [Sample.S1; Sample.S4; Sample.S3])
            Sample.db
       = Return (authorized, unauthorized)
       ∧ Sample.S4 ∈ authorized ∧ (Sample.S4 ∉ unauthorized))
  ∧ eval (access_stream_common Sample.U Sample.S4 "denied") Sample.db
    = Raise (JsonableError "denied").
Proof.
  destruct (public_stream_authorized_in_any_realm Sample.db Sample.U Sample.S4
              Sample_db_wf eq_refl) as (Hone & Hany & Hcommon).
  split; [exact Hone|]. split.
  - apply Hany; [|set_solver].
    apply (table_rows_same_flag Sample.db); [apply Sample_db_wf|].
    intros s Hs. set_unfold. tauto.
  - apply Hcommon. vm_compute. discriminate.
Defined.

(** C10.  In a database that satisfies its integrity constraints,
    [filter_stream_authorization] returns two lists such that no id
    occurs in both; every input stream is in the authorized list or
    occurs (by id) in the unauthorized one, and is itself in one of the
    two lists when entries of the same id agree on [invite_only]; the
    unauthorized list is the input list, in its order, restricted to
    the invite_only entries the user is not subscribed to, each as
    many times as the input has it. *)
Theorem authorized_unauthorized_partition
    (db : Db) (user_profile : UserProfile) (streams : list Stream) :
  db_wf db →
  ∃ authorized unauthorized,
    eval (filter_stream_authorization user_profile streams) db
    = Return (authorized, unauthorized)
    ∧ (∀ a b, a ∈ authorized → b ∈ unauthorized → stream_id a ≠ stream_id b)
    ∧ (∀ s, s ∈ streams → s ∈ authorized ∨ occurs s unauthorized)
    ∧ (same_id_same_flag streams →
         ∀ s, s ∈ streams → s ∈ authorized ∨ s ∈ unauthorized)
    ∧ unauthorized
      = filter (λ s, invite_only s = true ∧ ¬ subscribed db user_profile s)
               streams.
Proof.
  intros Hwf.
  destruct (filter_stream_authorization_run db user_profile streams Hwf) as [He _].
  eexists _, _. split; [exact He|].
  set (unauth := filter (unauthorized_for db user_profile) streams).
  split; [|split; [|split; [|done]]].
  - intros a b Ha Hb Hid. apply list_elem_of_filter in Ha as [Ha _].
    apply Ha. rewrite Hid. by apply list_elem_of_fmap_2.
  - intros s Hs. unfold occurs.
    destruct (decide (stream_id s ∈ (stream_id <$> unauth))) as [Hu|Hu];
      [by right|left]. by apply list_elem_of_filter.
  - intros Hflag s Hs.
    destruct (decide (stream_id s ∈ (stream_id <$> unauth))) as [Hu|Hu].
    + right. by apply unauthorized_by_id.
    + left. by apply list_elem_of_filter.
Qed.

Lemma authorized_unauthorized_partition_witness :
  ∃ authorized unauthorized,
    eval (filter_stream_authorization Sample.U
            [Sample.S3; Sample.S1; Sample.S2; Sample.S3]) Sample.db
    = Return (authorized, unauthorized)
    ∧ unauthorized = [Sample.S3; Sample.S3]
    ∧ (∀ a b, a ∈ authorized → b ∈ unauthorized → stream_id a ≠ stream_id b)
    ∧ (∀ s, s ∈ [Sample.S3; Sample.S1; Sample.S2; Sample.S3] →
            s ∈ authorized ∨ s ∈ unauthorized).
Proof.
  destruct (authorized_unauthorized_partition Sample.db Sample.U
              [Sample.S3; Sample.S1; Sample.S2; Sample.S3] Sample_db_wf)
    as (authorized & unauthorized & He & Hdisj & _ & Hall & Hu).
  exists authorized, unauthorized. split; [exact He|].
  split; [|split; [exact Hdisj|]].
  - vm_compute in He. injection He as <- <-. reflexivity.
  - apply Hall, (table_rows_same_flag Sample.db); [apply Sample_db_wf|].
    intros s Hs. set_unfold. tauto.
Defined.

(** ** Recipient loads of the bulk filter *)

Lemma Sample_db_two_subs_wf : db_wf Sample.db_two_subs.
Proof. split; compute_done. Qed.

Lemma subs_found_active_subscriptions_to db u streams :
  db_wf db → subs_found db u streams = active_subscriptions_to db u streams.
Proof.
  intros Hwf. unfold subs_found, Subscription_rows_in, active_subscriptions_to.
  apply list_filter_iff. intros sub.
  rewrite list_elem_of_fmap, Exists_exists. split.
  - intros (Hu & (r & Hrid & Hr) & Ha).
    apply (elem_of_dict_values_recipients_found db streams r Hwf) in Hr.
    destruct Hr as (Hr & Hk & Ht).
    split; [done|]. split; [done|]. exists r. by repeat split.
  - intros (Hu & Ha & r & Hr & Hrid & Hk & Ht).
    split; [done|]. split; [|done]. exists r. split; [done|].
    by apply (elem_of_dict_values_recipients_found db streams r Hwf).
Qed.

Lemma loads_of_loads (subs : list Subscription) :
  filter (λ c, is_load c = true)
         ((λ sub, Call_load_recipient (sub_recipient_id sub)) <$> subs)
  = (λ sub, Call_load_recipient (sub_recipient_id sub)) <$> subs.
Proof.
  induction subs as [|sub subs IH]; [done|].
  rewrite fmap_cons, filter_cons_True by done. by rewrite IH.
Qed.

(** C9.  Where the code departs from the claim: besides its two bulk
    calls, [filter_stream_authorization] reads [sub.recipient] in its
    first loop, which loads a recipient row for every subscription the
    bulk fetch returned.  In a database that satisfies its integrity
    constraints, for every input, the run makes as many single-row
    recipient loads as the user has active subscriptions to recipients
    of the input streams, one for each of them: none for the empty
    input, and more the more subscribed streams the input holds. *)
Theorem recipient_loaded_for_each_subscription
    (db : Db) (user_profile : UserProfile) (streams : list Stream) :
  db_wf db →
  length (filter (λ c, is_load c = true)
            (calls (filter_stream_authorization user_profile streams) db))
  = length (active_subscriptions_to db user_profile streams)
  ∧ (∀ sub, sub ∈ active_subscriptions_to db user_profile streams →
       Call_load_recipient (sub_recipient_id sub)
       ∈ calls (filter_stream_authorization user_profile streams) db).
Proof.
  intros Hwf.
  destruct (filter_stream_authorization_run db user_profile streams Hwf) as [_ Hc].
  rewrite Hc, (subs_found_active_subscriptions_to db user_profile streams Hwf).
  split.
  - rewrite !filter_cons_False by (simpl; discriminate).
    by rewrite loads_of_loads, length_fmap.
  - intros sub Hsub. do 2 right.
    by apply (list_elem_of_fmap_2
                (λ sub, Call_load_recipient (sub_recipient_id sub))).
Qed.

Lemma recipient_loaded_for_each_subscription_witness :
  length (filter (λ c, is_load c = true)
            (calls (filter_stream_authorization Sample.U []) Sample.db_two_subs))
  = 0%nat
  ∧ length (filter (λ c, is_load c = true)
              (calls (filter_stream_authorization Sample.U [Sample.S2])
                     Sample.db_two_subs))
    = 1%nat
  ∧ length (filter (λ c, is_load c = true)
              (calls (filter_stream_authorization Sample.U [Sample.S2; Sample.S3])
                     Sample.db_two_subs))
    = 2%nat.
Proof.
  destruct (recipient_loaded_for_each_subscription
              Sample.db_two_subs Sample.U [] Sample_db_two_subs_wf) as [-> _].
  destruct (recipient_loaded_for_each_subscription
              Sample.db_two_subs Sample.U [Sample.S2] Sample_db_two_subs_wf)
    as [-> _].
  destruct (recipient_loaded_for_each_subscription
              Sample.db_two_subs Sample.U [Sample.S2; Sample.S3]
              Sample_db_two_subs_wf) as [-> _].
  split; [|split]; vm_compute; reflexivity.
Defined.

(** ** Further properties of the single-stream check *)

(** The answer of [access_stream_common] on any tables, well-formed or
    not. *)
Lemma access_stream_common_eval_any db u s err :
  eval (access_stream_common u s err) db =
    if negb (stream_realm_id s =? realm_id u) then Raise (JsonableError err)
    else match Recipient_rows db STREAM (stream_id s) with
         | [] => Raise (DoesNotExist MRecipient)
         | [r] =>
             match Subscription_rows db u r with
             | [] => if is_public s then Return (r, None)
                     else Raise (JsonableError err)
             | [sub] => Return (r, Some sub)
             | _ => Raise (MultipleObjectsReturned MSubscription)
             end
         | _ => Raise (MultipleObjectsReturned MRecipient)
         end.
Proof.
  unfold access_stream_common.
  destruct (negb _); [done|].
  unfold eval, run, mbind, M_bind, get_recipient, query; simpl.
  destruct (Recipient_rows db STREAM (stream_id s)) as [|r [|r' rows]]; simpl;
    [done| |done].
  unfold try_except, fmap, M_fmap, Subscription_objects_get, query; simpl.
  destruct (Subscription_rows db u r) as [|sub [|sub' rows]]; simpl;
    by destruct (is_public s).
Qed.

(** The calls of [access_stream_common] on any tables. *)
Lemma access_stream_common_calls_any db u s err :
  calls (access_stream_common u s err) db =
    if negb (stream_realm_id s =? realm_id u) then []
    else Call_get_recipient STREAM (stream_id s)
         :: match Recipient_rows db STREAM (stream_id s) with
            | [r] => [Call_Subscription_get (user_id u) (recipient_id r)]
            | _ => []
            end.
Proof.
  unfold access_stream_common.
  destruct (negb _); [done|].
  unfold calls, run, mbind, M_bind, get_recipient, query; simpl.
  destruct (Recipient_rows db STREAM (stream_id s)) as [|r [|r' rows]]; simpl;
    [done| |done].
  unfold try_except, fmap, M_fmap, Subscription_objects_get, query; simpl.
  destruct (Subscription_rows db u r) as [|sub [|sub' rows]]; simpl;
    by destruct (is_public s).
Qed.

Lemma Recipient_rows_singleton db s r :
  Recipient_rows db STREAM (stream_id s) = [r] → recipient_of db s r.
Proof.
  intros E.
  assert (Hin : r ∈ Recipient_rows db STREAM (stream_id s)) by (rewrite E; by left).
  unfold Recipient_rows in Hin. apply list_elem_of_filter in Hin.
  unfold recipient_of. tauto.
Qed.

(** What a successful answer of [access_stream_common] tells, on any
    tables. *)
Lemma access_stream_common_granted db u s err r sub :
  eval (access_stream_common u s err) db = Return (r, sub) →
  stream_realm_id s = realm_id u
  ∧ recipient_of db s r
  ∧ match sub with
    | Some x => active_subscription db u r x
    | None => invite_only s = false ∧ ∀ x, ¬ active_subscription db u r x
    end.
Proof.
  rewrite access_stream_common_eval_any.
  destruct (stream_realm_id s =? realm_id u) eqn:Hrealm; simpl; [|done].
  apply Z.eqb_eq in Hrealm.
  destruct (Recipient_rows db STREAM (stream_id s)) as [|r0 [|r' rows]] eqn:Hr;
    [done| |done].
  apply Recipient_rows_singleton in Hr.
  destruct (Subscription_rows db u r0) as [|sub0 [|sub' rows]] eqn:Hs; [| |done].
  - unfold is_public. destruct (invite_only s) eqn:Hinv; simpl; [done|].
    intros [= <- <-]. do 3 (split; [done|]).
    intros x Hx. apply elem_of_Subscription_rows in Hx. rewrite Hs in Hx.
    by apply not_elem_of_nil in Hx.
  - intros [= <- <-]. do 2 (split; [done|]).
    apply elem_of_Subscription_rows. rewrite Hs. by left.
Qed.

(** The error text only names the [JsonableError]: the answer for one
    text is the answer for another with that text exchanged. *)
Lemma access_stream_common_retext db u s e1 e2 :
  eval (access_stream_common u s e2) db =
    match eval (access_stream_common u s e1) db with
    | Return v => Return v
    | Raise (JsonableError _) => Raise (JsonableError e2)
    | Raise x => Raise x
    end.
Proof.
  rewrite !access_stream_common_eval_any.
  destruct (negb _); [done|].
  destruct (Recipient_rows db STREAM (stream_id s)) as [|r [|r' rows]]; try done.
  destruct (Subscription_rows db u r) as [|sub [|sub' rows]]; try done.
  by destruct (is_public s).
Qed.

(** X1.  [access_stream_common] never grants access it should not, on
    any tables: when it returns [(r, sub)], the stream is of the user's
    realm, [r] is a recipient row of the stream, and [sub] is either an
    active subscription row of the user to [r], or [None] for a stream
    that is not invite_only and to which the user has no active
    subscription. *)
Theorem access_stream_common_sound
    (db : Db) (user_profile : UserProfile) (stream : Stream) (error : string)
    (r : Recipient) (sub : option Subscription) :
  eval (access_stream_common user_profile stream error) db = Return (r, sub) →
  stream_realm_id stream = realm_id user_profile
  ∧ recipient_of db stream r
  ∧ match sub with
    | Some x => active_subscription db user_profile r x
    | None => invite_only stream = false
              ∧ ∀ x, ¬ active_subscription db user_profile r x
    end.
Proof.
  intros He.
  destruct (access_stream_common_granted db user_profile stream error r sub He)
    as (Hrealm & Hr & Hsub).
  split; [exact Hrealm|]. split; [exact Hr|exact Hsub].
Qed.

Lemma access_stream_common_sound_witness :
  stream_realm_id Sample.S2 = realm_id Sample.U
  ∧ recipient_of Sample.db Sample.S2 Sample.R2
  ∧ active_subscription Sample.db Sample.U Sample.R2 Sample.Sub2.
Proof.
  apply (access_stream_common_sound Sample.db Sample.U Sample.S2 "denied"
           Sample.R2 (Some Sample.Sub2)).
  reflexivity.
Defined.

(** X2.  The error text passed to [access_stream_common] has no part in
    the decision: with two texts the call returns the same value or
    fails in the same way, a [JsonableError] carrying the text of the
    call it comes from. *)
Theorem access_stream_common_error_text_irrelevant
    (db : Db) (user_profile : UserProfile) (stream : Stream) (e1 e2 : string) :
  (∀ v, eval (access_stream_common user_profile stream e1) db = Return v
        ↔ eval (access_stream_common user_profile stream e2) db = Return v)
  ∧ (eval (access_stream_common user_profile stream e1) db
       = Raise (JsonableError e1)
     ↔ eval (access_stream_common user_profile stream e2) db
       = Raise (JsonableError e2))
  ∧ (∀ m, eval (access_stream_common user_profile stream e1) db
          = Raise (DoesNotExist m)
          ↔ eval (access_stream_common user_profile stream e2) db
            = Raise (DoesNotExist m))
  ∧ (∀ m, eval (access_stream_common user_profile stream e1) db
          = Raise (MultipleObjectsReturned m)
          ↔ eval (access_stream_common user_profile stream e2) db
            = Raise (MultipleObjectsReturned m)).
Proof.
  pose proof (access_stream_common_retext db user_profile stream e1 e2) as H12.
  pose proof (access_stream_common_retext db user_profile stream e2 e1) as H21.
  destruct (eval (access_stream_common user_profile stream e1) db) as [v1|[x1|m1|m1]];
    destruct (eval (access_stream_common user_profile stream e2) db) as [v2|[x2|m2|m2]];
    simplify_eq; done.
Qed.

(** X3.  Only [Subscription.DoesNotExist] is caught.  For a stream of
    the user's realm: when the stream has no recipient row, the call
    fails with the lookup's [DoesNotExist], not with the caller's
    error; when the stream has one recipient row and the user has two
    or more active subscriptions to it, the call fails with
    [MultipleObjectsReturned], even for a public stream. *)
Theorem lookup_errors_are_not_caught
    (db : Db) (user_profile : UserProfile) (stream : Stream) (error : string) :
  stream_realm_id stream = realm_id user_profile →
  ((∀ r, r ∈ Recipient_objects db →
         ¬ (rtype r = STREAM ∧ type_id r = stream_id stream)) →
     eval (access_stream_common user_profile stream error) db
     = Raise (DoesNotExist MRecipient))
  ∧ (∀ r x y rest,
       Recipient_rows db STREAM (stream_id stream) = [r] →
       Subscription_rows db user_profile r = x :: y :: rest →
       eval (access_stream_common user_profile stream error) db
       = Raise (MultipleObjectsReturned MSubscription)).
Proof.
  intros Hrealm. rewrite access_stream_common_eval_any.
  rewrite Hrealm, Z.eqb_refl; simpl. split.
  - intros Hnone. unfold Recipient_rows. by rewrite filter_none.
  - intros r x y rest -> ->. done.
Qed.

Lemma lookup_errors_are_not_caught_witness :
  eval (access_stream_common Sample.U Sample.S1 "denied") Broken.db_no_recipient
  = Raise (DoesNotExist MRecipient)
  ∧ eval (access_stream_common Sample.U Sample.S1 "denied") Broken.db_double_sub
    = Raise (MultipleObjectsReturned MSubscription).
Proof.
  split.
  - apply (lookup_errors_are_not_caught
             Broken.db_no_recipient Sample.U Sample.S1 "denied" eq_refl).
    intros r Hr [_ Ht]. apply list_elem_of_singleton in Hr as ->.
    discriminate Ht.
  - apply (lookup_errors_are_not_caught
             Broken.db_double_sub Sample.U Sample.S1 "denied" eq_refl)
      with (r := Sample.R1) (x := Broken.Sub1) (y := Broken.Sub1_again) (rest := []);
      reflexivity.
Defined.

(** ** Further properties of the lookups by id and by name *)

Lemma Stream_rows_singleton db id s :
  Stream_rows db id = [s] → s ∈ Stream_objects db ∧ stream_id s = id.
Proof.
  intros E. assert (Hin : s ∈ Stream_rows db id) by (rewrite E; by left).
  unfold Stream_rows in Hin. apply list_elem_of_filter in Hin. tauto.
Qed.

(** X4.  [access_stream_by_id] never grants access it should not, on
    any tables: when it returns [(s, r, sub)], [s] is a row of the
    stream table with the requested id and of the user's realm, [r] is
    a recipient row of [s], and [sub] is either an active subscription
    row of the user to [r], or [None] for a stream that is not
    invite_only and to which the user has no active subscription. *)
Theorem access_stream_by_id_sound
    (ugettext : string → string) (db : Db) (user_profile : UserProfile) (id : Z)
    (s : Stream) (r : Recipient) (sub : option Subscription) :
  eval (access_stream_by_id ugettext user_profile id) db = Return (s, r, sub) →
  s ∈ Stream_objects db ∧ stream_id s = id
  ∧ stream_realm_id s = realm_id user_profile
  ∧ recipient_of db s r
  ∧ match sub with
    | Some x => active_subscription db user_profile r x
    | None => invite_only s = false
              ∧ ∀ x, ¬ active_subscription db user_profile r x
    end.
Proof.
  rewrite access_stream_by_id_eval.
  destruct (Stream_rows db id) as [|s0 [|s' rows]] eqn:Hrows; [done| |done].
  apply Stream_rows_singleton in Hrows as [Hin Hid].
  destruct (eval (access_stream_common user_profile s0 _) db) as [[r0 sub0]|e] eqn:He;
    [|done].
  intros [= <- <- <-].
  apply access_stream_common_granted in He. tauto.
Qed.

Lemma access_stream_by_id_sound_witness :
  Sample.S1 ∈ Stream_objects Sample.db ∧ stream_id Sample.S1 = 1
  ∧ stream_realm_id Sample.S1 = realm_id Sample.U
  ∧ recipient_of Sample.db Sample.S1 Sample.R1
  ∧ invite_only Sample.S1 = false
    ∧ ∀ x, ¬ active_subscription Sample.db Sample.U Sample.R1 x.
Proof.
  apply (access_stream_by_id_sound Sample.english Sample.db Sample.U 1
           Sample.S1 Sample.R1 None).
  reflexivity.
Defined.

(** X5.  [access_stream_by_id] grants what it should: in a database
    that satisfies its integrity constraints, for a row [s] of the
    stream table in the user's realm with recipient [r], when [s] is
    not invite_only or the user has an active subscription to [r], the
    lookup of the id of [s] returns [s] and [r], with the user's active
    subscription when there is one and [None] when there is none. *)
Theorem access_stream_by_id_grants
    (ugettext : string → string) (db : Db) (user_profile : UserProfile)
    (s : Stream) (r : Recipient) :
  db_wf db → s ∈ Stream_objects db → recipient_of db s r →
  stream_realm_id s = realm_id user_profile →
  invite_only s = false ∨ (∃ x, active_subscription db user_profile r x) →
  ∃ sub, eval (access_stream_by_id ugettext user_profile (stream_id s)) db
         = Return (s, r, sub)
         ∧ match sub with
           | Some x => active_subscription db user_profile r x
           | None => ∀ x, ¬ active_subscription db user_profile r x
           end.
Proof.
  intros Hwf Hs Hr Hrealm Hok.
  rewrite access_stream_by_id_eval, (stream_rows_wf db s Hwf Hs).
  destruct (access_stream_common_cases db user_profile s
              (ugettext "Invalid stream id") r Hwf Hr Hrealm)
    as [(x & Hx & ->)|[Hn ->]].
  - by exists (Some x).
  - destruct Hok as [Hpub|[x Hx]]; [|by destruct (Hn x)].
    exists None. unfold is_public. by rewrite Hpub.
Qed.

Lemma access_stream_by_id_grants_witness :
  ∃ sub, eval (access_stream_by_id Sample.english Sample.U 2) Sample.db
         = Return (Sample.S2, Sample.R2, sub)
         ∧ match sub with
           | Some x => active_subscription Sample.db Sample.U Sample.R2 x
           | None => ∀ x, ¬ active_subscription Sample.db Sample.U Sample.R2 x
           end.
Proof.
  apply (access_stream_by_id_grants Sample.english Sample.db Sample.U
           Sample.S2 Sample.R2 Sample_db_wf).
  - set_solver.
  - split; [set_solver|done].
  - reflexivity.
  - right. exists Sample.Sub2. split; [set_solver|done].
Defined.

(** X6.  On any tables, a [JsonableError] that comes out of
    [access_stream_by_id] carries the generic text, the translation of
    "Invalid stream id"; and an id that no row of the stream table has
    always gives that error. *)
Theorem access_stream_by_id_one_error_text
    (ugettext : string → string) (db : Db) (user_profile : UserProfile) (id : Z) :
  (∀ e, eval (access_stream_by_id ugettext user_profile id) db
        = Raise (JsonableError e) →
        e = ugettext "Invalid stream id")
  ∧ ((∀ s, s ∈ Stream_objects db → stream_id s ≠ id) →
       eval (access_stream_by_id ugettext user_profile id) db
       = Raise (JsonableError (ugettext "Invalid stream id"))).
Proof.
  rewrite access_stream_by_id_eval. split.
  - intros e.
    destruct (Stream_rows db id) as [|s0 [|s' rows]]; [by intros [= <-]| |done].
    destruct (eval (access_stream_common user_profile s0 _) db) as [[r0 sub0]|x] eqn:He;
      [done|]. intros [= ->].
    by apply access_stream_common_error_text in He.
  - intros Hnone. unfold Stream_rows. rewrite filter_none; [done|].
    intros s Hs. by apply Hnone.
Qed.

Lemma access_stream_by_id_one_error_text_witness :
  eval (access_stream_by_id Sample.english Sample.U 404) Sample.db
  = Raise (JsonableError "Invalid stream id").
Proof.
  apply (access_stream_by_id_one_error_text Sample.english Sample.db Sample.U 404).
  intros s Hs. set_unfold in Hs. by destruct Hs as [->|[->|[->|[->|[]]]]].
Defined.

(** X7.  [access_stream_by_name] never grants access it should not, on
    any tables: when it returns [(s, r, sub)], [s] is the stream that
    [get_stream] found for the name in the user's realm, it is of the
    user's realm, [r] is a recipient row of [s], and [sub] is either an
    active subscription row of the user to [r], or [None] for a stream
    that is not invite_only and to which the user has no active
    subscription. *)
Theorem access_stream_by_name_sound
    (ugettext : string → string) (db : Db) (user_profile : UserProfile)
    (name : string) (s : Stream) (r : Recipient) (sub : option Subscription) :
  eval (access_stream_by_name ugettext user_profile name) db = Return (s, r, sub) →
  eval (get_stream name (realm user_profile)) db = Return (Some s)
  ∧ stream_realm_id s = realm_id user_profile
  ∧ recipient_of db s r
  ∧ match sub with
    | Some x => active_subscription db user_profile r x
    | None => invite_only s = false
              ∧ ∀ x, ¬ active_subscription db user_profile r x
    end.
Proof.
  rewrite access_stream_by_name_eval.
  destruct (eval (get_stream name (realm user_profile)) db) as [[s0|]|e];
    [|done|done].
  destruct (eval (access_stream_common user_profile s0 _) db) as [[r0 sub0]|e] eqn:He;
    [|done].
  intros [= <- <- <-].
  apply access_stream_common_granted in He. tauto.
Qed.

Lemma access_stream_by_name_sound_witness :
  eval (get_stream "core" (realm Sample.U)) Sample.db = Return (Some Sample.S2)
  ∧ stream_realm_id Sample.S2 = realm_id Sample.U
  ∧ recipient_of Sample.db Sample.S2 Sample.R2
  ∧ active_subscription Sample.db Sample.U Sample.R2 Sample.Sub2.
Proof.
  apply (access_stream_by_name_sound Sample.english Sample.db Sample.U "core"
           Sample.S2 Sample.R2 (Some Sample.Sub2)).
  reflexivity.
Defined.

(** X8.  The two lookups agree: in a database that satisfies its
    integrity constraints, when [get_stream] finds the stream [s] for a
    name, the lookup by that name and the lookup by the id of [s]
    return the same value when one of them returns, and one is denied
    (fails with a [JsonableError]) exactly when the other is. *)
Theorem lookup_by_name_agrees_with_lookup_by_id
    (ugettext : string → string) (db : Db) (user_profile : UserProfile)
    (name : string) (s : Stream) :
  db_wf db →
  eval (get_stream name (realm user_profile)) db = Return (Some s) →
  (∀ v, eval (access_stream_by_name ugettext user_profile name) db = Return v
        ↔ eval (access_stream_by_id ugettext user_profile (stream_id s)) db
          = Return v)
  ∧ ((∃ e, eval (access_stream_by_name ugettext user_profile name) db
           = Raise (JsonableError e))
     ↔ (∃ e, eval (access_stream_by_id ugettext user_profile (stream_id s)) db
             = Raise (JsonableError e))).
Proof.
  intros Hwf Hget.
  destruct (get_stream_found db name (realm user_profile) s Hget) as (Hs & _ & _).
  rewrite access_stream_by_name_eval, Hget.
  rewrite access_stream_by_id_eval, (stream_rows_wf db s Hwf Hs).
  rewrite (access_stream_common_retext db user_profile s
             (ugettext (invalid_stream_name name)) (ugettext "Invalid stream id")).
  destruct (eval (access_stream_common user_profile s
                    (ugettext (invalid_stream_name name))) db)
    as [[r sub]|[x|m|m]]; split; try done;
    split; first [ by intros [e [=]] | intros _; by eexists ].
Qed.

Lemma lookup_by_name_agrees_with_lookup_by_id_witness :
  (∀ v, eval (access_stream_by_name Sample.english Sample.U "core") Sample.db
        = Return v
        ↔ eval (access_stream_by_id Sample.english Sample.U 2) Sample.db
          = Return v)
  ∧ ((∃ e, eval (access_stream_by_name Sample.english Sample.U "core") Sample.db
           = Raise (JsonableError e))
     ↔ (∃ e, eval (access_stream_by_id Sample.english Sample.U 2) Sample.db
             = Raise (JsonableError e))).
Proof.
  apply (lookup_by_name_agrees_with_lookup_by_id Sample.english Sample.db Sample.U
           "core" Sample.S2 Sample_db_wf).
  reflexivity.
Defined.

Lemma access_stream_common_calls_bound db u s err :
  (length (calls (access_stream_common u s err) db) ≤ 2)%nat.
Proof.
  rewrite access_stream_common_calls_any.
  destruct (negb _); simpl; [lia|].
  destruct (Recipient_rows db STREAM (stream_id s)) as [|r [|r' rows]]; simpl; lia.
Qed.

(** X9.  On any tables each lookup makes at most three calls: the
    lookup of the stream first, by id or by name in the user's realm,
    and after it at most the two calls of [access_stream_common]. *)
Theorem lookups_make_at_most_three_calls
    (ugettext : string → string) (db : Db) (user_profile : UserProfile)
    (id : Z) (name : string) :
  (∃ rest, calls (access_stream_by_id ugettext user_profile id) db
           = Call_Stream_get id :: rest
           ∧ (length rest ≤ 2)%nat)
  ∧ (∃ rest, calls (access_stream_by_name ugettext user_profile name) db
             = Call_get_stream name (realm_id user_profile) :: rest
             ∧ (length rest ≤ 2)%nat).
Proof.
  split.
  - unfold access_stream_by_id. rewrite calls_bind.
    + eexists. split.
      * unfold calls at 1. unfold run, try_except, Stream_objects_get, query; simpl.
        destruct (qs_get MStream (Stream_rows db id)) as [s|[x|[]|m]]; reflexivity.
      * destruct (eval _ db) as [s|e]; simpl; [|lia].
        rewrite calls_bind; [|apply reads_access_stream_common|].
        -- pose proof (access_stream_common_calls_bound db user_profile s
                         (ugettext invalid_stream_id)) as Hb.
           destruct (eval (access_stream_common user_profile s _) db) as [[r sub]|e];
             rewrite length_app; simpl; lia.
        -- intros [r sub]. apply reads_ret.
    + apply reads_try_except; [apply reads_query|].
      intros [|[]|] k E; simplify_eq. apply reads_raise.
    + intros s. apply reads_bind; [apply reads_access_stream_common|].
      intros [r sub]. apply reads_ret.
  - unfold access_stream_by_name. rewrite calls_bind; [|apply reads_query|].
    + eexists. split; [reflexivity|].
      destruct (eval _ db) as [[s|]|e]; simpl; try lia.
      rewrite calls_bind; [|apply reads_access_stream_common|].
      * pose proof (access_stream_common_calls_bound db user_profile s
                      (ugettext (invalid_stream_name name))) as Hb.
        destruct (eval (access_stream_common user_profile s _) db) as [[r sub]|e];
          rewrite length_app; simpl; lia.
      * intros [r sub]. apply reads_ret.
    + intros [s|]; [|apply reads_raise].
      apply reads_bind; [apply reads_access_stream_common|].
      intros [r sub]. apply reads_ret.
Qed.

(** ** Further properties of the bulk filter *)

Lemma filter_all {A} (P : A → Prop) `{!∀ x, Decision (P x)} (l : list A) :
  (∀ x, x ∈ l → P x) → filter P l = l.
Proof.
  induction l as [|a l IH]; intros Hall; [done|].
  rewrite filter_cons_True; [|apply Hall; by left].
  f_equal. apply IH. intros x Hx. apply Hall. by right.
Qed.

(** X10.  The empty input, on any tables: [filter_stream_authorization]
    returns two empty lists, leaves the database as it was, and still
    makes its two bulk calls, each with an empty list of keys. *)
Theorem filter_stream_authorization_empty
    (db : Db) (user_profile : UserProfile) :
  run (filter_stream_authorization user_profile []) db
  = (Return ([], []),
     {| world_db := db;
        world_log := [Call_bulk_get_recipients STREAM [];
                      Call_Subscription_filter (user_id user_profile) []] |}).
Proof.
  assert (Hrows : Recipient_rows_bulk db STREAM [] = []).
  { apply filter_none. intros r _ [_ Hin]. by apply not_elem_of_nil in Hin. }
  assert (Hsubs : Subscription_rows_in db user_profile [] = []).
  { apply filter_none. intros sub _ (_ & Hin & _). by apply not_elem_of_nil in Hin. }
  unfold filter_stream_authorization, run, mbind, M_bind.
  unfold bulk_get_recipients, Subscription_objects_filter, query; simpl.
  rewrite Hrows; simpl.
  unfold dict_values. rewrite map_to_list_empty; simpl.
  rewrite Hsubs. reflexivity.
Qed.

(** In a well-formed database the recipient of a stream is unique, so
    being subscribed is having an active subscription to it. *)
Lemma subscribed_to_recipient db u s r :
  db_wf db → recipient_of db s r →
  subscribed db u s ↔ ∃ x, active_subscription db u r x.
Proof.
  intros Hwf (Hr & Hk & Ht). rewrite subscribed_iff. split.
  - intros (r' & x & (Hr' & Hk' & Ht') & Hx).
    assert (r' = r) as ->; [|by exists x].
    apply (NoDup_fmap_inj_on (λ r, (rtype r, type_id r)) (Recipient_objects db));
      [apply Hwf|done..|]. simpl. congruence.
  - intros [x Hx]. by exists r, x.
Qed.

(** X11.  On streams of the user's realm the bulk filter and the single
    check agree: in a database that satisfies its integrity
    constraints, for an input stream of the user's realm that has a
    recipient (entries of one id agreeing on the flag), the stream is
    in the authorized list exactly when [access_stream_common] returns
    for it, and in the unauthorized list exactly when
    [access_stream_common] raises the caller's [JsonableError]. *)
Theorem filter_agrees_with_access_stream_common
    (db : Db) (user_profile : UserProfile) (streams : list Stream)
    (s : Stream) (r : Recipient) (error : string) :
  db_wf db → same_id_same_flag streams → s ∈ streams →
  stream_realm_id s = realm_id user_profile → recipient_of db s r →
  ∃ authorized unauthorized,
    eval (filter_stream_authorization user_profile streams) db
    = Return (authorized, unauthorized)
    ∧ (s ∈ authorized
       ↔ ∃ v, eval (access_stream_common user_profile s error) db = Return v)
    ∧ (s ∈ unauthorized
       ↔ eval (access_stream_common user_profile s error) db
         = Raise (JsonableError error)).
Proof.
  intros Hwf Hflag Hs Hrealm Hr.
  destruct (filter_stream_authorization_run db user_profile streams Hwf) as [He _].
  eexists _, _. split; [exact He|].
  pose proof (subscribed_to_recipient db user_profile s r Hwf Hr) as Hsub.
  assert (Hauth : s ∈ filter (λ s, stream_id s ∉
                     (stream_id <$> filter (unauthorized_for db user_profile) streams))
                   streams
                  ↔ ¬ unauthorized_for db user_profile s).
  { rewrite list_elem_of_filter. split.
    - intros [Hid _] Hun. apply Hid, list_elem_of_fmap_2.
      by apply list_elem_of_filter.
    - intros Hun. split; [|done]. intros Hid. apply Hun.
      apply (unauthorized_by_id db user_profile streams s Hflag Hs) in Hid.
      apply list_elem_of_filter in Hid. tauto. }
  rewrite Hauth, list_elem_of_filter. unfold unauthorized_for. rewrite Hsub.
  destruct (access_stream_common_cases db user_profile s error r Hwf Hr Hrealm)
    as [(x & Hx & ->)|[Hn ->]].
  - split; split; try done.
    + intros _. by eexists.
    + intros _ [_ Hno]. apply Hno. by exists x.
    + intros [[_ Hno] _]. destruct Hno. by exists x.
  - unfold is_public. destruct (invite_only s); simpl.
    + split; split; try done.
      * intros Hun. destruct Hun. split; [done|]. intros [x Hx]. by destruct (Hn x).
      * intros [v [=]].
      * intros _. split; [|done]. split; [done|]. intros [x Hx]. by destruct (Hn x).
    + split; split; try done.
      * intros _. by eexists.
      * intros _ [? _]. done.
      * intros [[? _] _]. done.
Qed.

Lemma filter_agrees_with_access_stream_common_witness :
  ∃ authorized unauthorized,
    eval (filter_stream_authorization Sample.U [Sample.S1; Sample.S2; Sample.S3])
         Sample.db
    = Return (authorized, unauthorized)
    ∧ (Sample.S3 ∈ authorized
       ↔ ∃ v, eval (access_stream_common Sample.U Sample.S3 "denied") Sample.db
              = Return v)
    ∧ (Sample.S3 ∈ unauthorized
       ↔ eval (access_stream_common Sample.U Sample.S3 "denied") Sample.db
         = Raise (JsonableError "denied")).
Proof.
  apply (filter_agrees_with_access_stream_common Sample.db Sample.U
           [Sample.S1; Sample.S2; Sample.S3] Sample.S3 Sample.R3 "denied"
           Sample_db_wf).
  - apply (table_rows_same_flag Sample.db); [apply Sample_db_wf|].
    intros s Hs. set_unfold. tauto.
  - set_solver.
  - reflexivity.
  - split; [set_solver|done].
Defined.

(** X12.  Filtering again changes nothing: in a database that satisfies
    its integrity constraints, the authorized list of a run, passed
    back to [filter_stream_authorization], comes back whole with
    nothing unauthorized, and the unauthorized list comes back whole as
    unauthorized with nothing authorized. *)
Theorem filter_stream_authorization_idempotent
    (db : Db) (user_profile : UserProfile) (streams : list Stream) :
  db_wf db →
  ∃ authorized unauthorized,
    eval (filter_stream_authorization user_profile streams) db
    = Return (authorized, unauthorized)
    ∧ eval (filter_stream_authorization user_profile authorized) db
      = Return (authorized, [])
    ∧ eval (filter_stream_authorization user_profile unauthorized) db
      = Return ([], unauthorized).
Proof.
  intros Hwf.
  set (unauth := filter (unauthorized_for db user_profile) streams).
  set (auth := filter (λ s, stream_id s ∉ (stream_id <$> unauth)) streams).
  exists auth, unauth.
  destruct (filter_stream_authorization_run db user_profile streams Hwf) as [-> _].
  destruct (filter_stream_authorization_run db user_profile auth Hwf) as [-> _].
  destruct (filter_stream_authorization_run db user_profile unauth Hwf) as [-> _].
  split; [done|].
  assert (Ha : filter (unauthorized_for db user_profile) auth = []).
  { apply filter_none. intros x Hx Hun.
    apply list_elem_of_filter in Hx as [Hid Hin].
    apply Hid, list_elem_of_fmap_2. by apply list_elem_of_filter. }
  assert (Hu : filter (unauthorized_for db user_profile) unauth = unauth).
  { apply filter_all. intros x Hx. apply list_elem_of_filter in Hx. tauto. }
  rewrite Ha, Hu. split; do 2 f_equal.
  - apply filter_all. intros x _. apply not_elem_of_nil.
  - apply filter_none. intros x Hx Hid. by apply Hid, list_elem_of_fmap_2.
Qed.

Lemma filter_stream_authorization_idempotent_witness :
  eval (filter_stream_authorization Sample.U [Sample.S1; Sample.S2]) Sample.db
  = Return ([Sample.S1; Sample.S2], [])
  ∧ eval (filter_stream_authorization Sample.U [Sample.S3; Sample.S3]) Sample.db
    = Return ([], [Sample.S3; Sample.S3]).
Proof.
  destruct (filter_stream_authorization_idempotent Sample.db Sample.U
              [Sample.S3; Sample.S1; Sample.S2; Sample.S3] Sample_db_wf)
    as (authorized & unauthorized & He & Ha & Hu).
  vm_compute in He. injection He as <- <-. split; [exact Ha|exact Hu].
Defined.

(** X13.  The filter works entry by entry: in a database that
    satisfies its integrity constraints, the unauthorized list of two
    inputs put end to end is the two unauthorized lists put end to
    end, and so is the authorized list when entries of one id agree on
    [invite_only] across the two inputs. *)
Theorem filter_stream_authorization_app
    (db : Db) (user_profile : UserProfile) (streams1 streams2 : list Stream) :
  db_wf db →
  ∃ authorized1 unauthorized1 authorized2 unauthorized2 authorized,
    eval (filter_stream_authorization user_profile streams1) db
    = Return (authorized1, unauthorized1)
    ∧ eval (filter_stream_authorization user_profile streams2) db
      = Return (authorized2, unauthorized2)
    ∧ eval (filter_stream_authorization user_profile (streams1 ++ streams2)) db
      = Return (authorized, unauthorized1 ++ unauthorized2)
    ∧ (same_id_same_flag (streams1 ++ streams2) →
       authorized = authorized1 ++ authorized2).
Proof.
  intros Hwf.
  destruct (filter_stream_authorization_run db user_profile streams1 Hwf) as [H1 _].
  destruct (filter_stream_authorization_run db user_profile streams2 Hwf) as [H2 _].
  destruct (filter_stream_authorization_run db user_profile (streams1 ++ streams2) Hwf)
    as [H12 _].
  rewrite (filter_app (unauthorized_for db user_profile)) in H12.
  eexists _, _, _, _, _. split; [exact H1|]. split; [exact H2|]. split; [exact H12|].
  intros Hflag. rewrite filter_app.
  assert (Hid : ∀ x, x ∈ streams1 ++ streams2 →
            stream_id x ∈ (stream_id <$> filter (unauthorized_for db user_profile) streams1
                                       ++ filter (unauthorized_for db user_profile) streams2)
            → unauthorized_for db user_profile x).
  { intros x Hx Hin. rewrite <- filter_app in Hin.
    apply (unauthorized_by_id db user_profile _ x Hflag Hx) in Hin.
    apply list_elem_of_filter in Hin. tauto. }
  f_equal; apply filter_iff_in; intros x Hx; split; intros Hno Hin; apply Hno.
  - rewrite fmap_app, elem_of_app. by left.
  - apply list_elem_of_fmap_2, list_elem_of_filter. split; [|done].
    apply Hid; [|done]. apply elem_of_app. by left.
  - rewrite fmap_app, elem_of_app. by right.
  - apply list_elem_of_fmap_2, list_elem_of_filter. split; [|done].
    apply Hid; [|done]. apply elem_of_app. by right.
Qed.

Lemma filter_stream_authorization_app_witness :
  ∃ authorized1 unauthorized1 authorized2 unauthorized2 authorized,
    eval (filter_stream_authorization Sample.U [Sample.S3; Sample.S1]) Sample.db
    = Return (authorized1, unauthorized1)
    ∧ eval (filter_stream_authorization Sample.U [Sample.S2; Sample.S3]) Sample.db
      = Return (authorized2, unauthorized2)
    ∧ eval (filter_stream_authorization Sample.U
              ([Sample.S3; Sample.S1] ++ [Sample.S2; Sample.S3])) Sample.db
      = Return (authorized, unauthorized1 ++ unauthorized2)
    ∧ authorized = authorized1 ++ authorized2.
Proof.
  destruct (filter_stream_authorization_app Sample.db Sample.U
              [Sample.S3; Sample.S1] [Sample.S2; Sample.S3] Sample_db_wf)
    as (a1 & u1 & a2 & u2 & a & H1 & H2 & H12 & Happ).
  exists a1, u1, a2, u2, a. do 3 (split; [done|]).
  apply Happ, (table_rows_same_flag Sample.db); [apply Sample_db_wf|].
  intros s Hs. set_unfold. tauto.
Defined.
